(** * Email assistant: triage pipeline of [email_assistant.py]

    A shallow embedding of the analysis-and-synthesis core of the
    [EmailAssistant] class (sentiment fallback, urgency scoring, signal
    extraction, knowledge-base matching, templated response synthesis and
    the regeneration route), followed by the properties established for it.

    Texts are Python [str] values over ASCII code points: one [ascii] per
    character.  Case mapping, whitespace and the regular-expression classes
    [\w], [\d], [\s] are the ASCII restrictions of Python's. *)

From Stdlib Require Import Ascii QArith.
From stdpp Require Import gmap strings list pretty.

Local Open Scope nat_scope.

(** ** Python [str] methods *)
Module PyStr.

Definition code (c : ascii) : N := N_of_ascii c.

Definition in_range (lo hi : N) (c : ascii) : bool :=
  ((lo <=? code c) && (code c <=? hi))%N.

Definition isupper (c : ascii) : bool := in_range 65 90 c.
Definition islower (c : ascii) : bool := in_range 97 122 c.
Definition isalpha (c : ascii) : bool := isupper c || islower c.
Definition isdigit (c : ascii) : bool := in_range 48 57 c.

(** [str.isspace] on one character: tab, LF, VT, FF, CR, the four
    separators FS, GS, RS, US, and the space. *)
Definition isspace (c : ascii) : bool := in_range 9 13 c || in_range 28 32 c.

Definition char_lower (c : ascii) : ascii :=
  if isupper c then ascii_of_N (code c + 32) else c.

Definition char_upper (c : ascii) : ascii :=
  if islower c then ascii_of_N (code c - 32) else c.

(** [s.lower()] *)
Fixpoint lower (s : string) : string :=
  match s with
  | EmptyString => EmptyString
  | String c s' => String (char_lower c) (lower s')
  end.

(** [s.startswith(p)] *)
Fixpoint startswith (p s : string) : bool :=
  match p, s with
  | EmptyString, _ => true
  | String _ _, EmptyString => false
  | String a p', String b s' => if Ascii.eqb a b then startswith p' s' else false
  end.

(** [needle in hay] *)
Fixpoint contains (needle hay : string) : bool :=
  startswith needle hay ||
  match hay with
  | EmptyString => false
  | String _ hay' => contains needle hay'
  end.

(** [s.lstrip()], [s.rstrip()], [s.strip()] *)
Fixpoint lstrip (s : string) : string :=
  match s with
  | EmptyString => EmptyString
  | String c s' => if isspace c then lstrip s' else s
  end.

Fixpoint rstrip (s : string) : string :=
  match s with
  | EmptyString => EmptyString
  | String c s' =>
      match rstrip s' with
      | EmptyString => if isspace c then EmptyString else String c EmptyString
      | r => String c r
      end
  end.

Definition strip (s : string) : string := rstrip (lstrip s).

(** [s.split(sep)] for a non-empty separator: the pieces between the
    non-overlapping occurrences of [sep], found from the left.  [skip]
    counts the characters of an occurrence still to be passed over. *)
Fixpoint split_from (sep : string) (skip : nat) (s : string) : list string :=
  match s with
  | EmptyString => [EmptyString]
  | String c s' =>
      match skip with
      | S k => split_from sep k s'
      | O =>
          if startswith sep s
          then EmptyString :: split_from sep (String.length sep - 1) s'
          else match split_from sep 0 s' with
               | piece :: pieces => String c piece :: pieces
               | [] => [String c EmptyString]
               end
      end
  end.

Definition split (sep s : string) : list string := split_from sep 0 s.

(** [sep.join(parts)] *)
Definition join (sep : string) (parts : list string) : string :=
  String.concat sep parts.

(** [s.replace(old, new)] for a non-empty [old] *)
Definition replace (old new s : string) : string := join new (split old s).

(** [s.title()]: a cased character is upper-cased when the character
    before it is not cased and lower-cased when it is. *)
Fixpoint title_from (prev_cased : bool) (s : string) : string :=
  match s with
  | EmptyString => EmptyString
  | String c s' =>
      if isalpha c
      then String (if prev_cased then char_lower c else char_upper c)
                  (title_from true s')
      else String c (title_from false s')
  end.

Definition title (s : string) : string := title_from false s.

(** [sum(1 for x in xs if cond(x))] *)
Definition sum_ones {A} (cond : A → bool) (xs : list A) : nat :=
  foldr (λ x acc, if cond x then 1 + acc else acc) 0 xs.

End PyStr.

(** ** Regular expressions: the fragment of Python's [re] the assistant uses

    A backtracking matcher.  [run] lists, in the order in which Python's
    engine explores them, every way a pattern can match at a position; the
    first entry is the match [re] reports there. *)
Module Re.
Import PyStr.

Inductive regex : Type :=
| Eps                                   (* empty pattern *)
| Chr (c : ascii)                       (* a literal character *)
| Cls (p : ascii → bool)                (* a set: [...], \d, \w, \s *)
| Rep (p : ascii → bool) (lo : nat) (hi : option nat)
                                        (* greedy set{lo,hi}; ? * + *)
| Bnd                                   (* \b *)
| Seq (r1 r2 : regex)
| Alt (r1 r2 : regex)                   (* r1|r2 *)
| Grp (r : regex).                      (* ( r ) *)

(** Literal text and n-ary alternation. *)
Fixpoint lit (s : string) : regex :=
  match s with
  | EmptyString => Eps
  | String c s' => Seq (Chr c) (lit s')
  end.

Fixpoint alts (rs : list regex) : regex :=
  match rs with
  | [] => Cls (λ _, false)
  | [r] => r
  | r :: rs' => Alt r (alts rs')
  end.

Fixpoint seqs (rs : list regex) : regex :=
  match rs with
  | [] => Eps
  | [r] => r
  | r :: rs' => Seq r (seqs rs')
  end.

(** \w, \d, \s *)
Definition word_char (c : ascii) : bool := isalpha c || isdigit c || Ascii.eqb c "_".
Definition digit_char (c : ascii) : bool := isdigit c.
Definition space_char (c : ascii) : bool := isspace c.
Definition one_of (cs : string) (c : ascii) : bool := contains (String c EmptyString) cs.

(** A position in the subject: the character before it (if any) and the
    text from it on. *)
Definition cursor : Type := option ascii * string.

Definition word_before (cur : cursor) : bool :=
  match cur.1 with Some c => word_char c | None => false end.
Definition word_after (cur : cursor) : bool :=
  match cur.2 with String c _ => word_char c | EmptyString => false end.
Definition at_boundary (cur : cursor) : bool :=
  xorb (word_before cur) (word_after cur).

(** Character tests under the IGNORECASE flag [ic]. *)
Definition chr_ok (ic : bool) (c d : ascii) : bool :=
  if ic then Ascii.eqb (char_lower c) (char_lower d) else Ascii.eqb c d.
Definition cls_ok (ic : bool) (p : ascii → bool) (d : ascii) : bool :=
  p d || (ic && (p (char_lower d) || p (char_upper d))).

(** Greedy repetition of a set: the longest run first, then shorter ones
    down to [lo] characters. *)
Fixpoint rep (ok : ascii → bool) (lo : nat) (hi : option nat)
    (prev : option ascii) (s : string) : list cursor :=
  let stop := match lo with O => [(prev, s)] | S _ => [] end in
  match s with
  | String d s' =>
      if ok d && negb (bool_decide (hi = Some 0))
      then rep ok (pred lo) (pred <$> hi) (Some d) s' ++ stop
      else stop
  | EmptyString => stop
  end.

(** The text between two positions of the same subject. *)
Definition consumed (s s' : string) : string :=
  String.substring 0 (String.length s - String.length s') s.

Fixpoint run (ic : bool) (r : regex) (cur : cursor) : list (cursor * list string) :=
  match r with
  | Eps => [(cur, [])]
  | Chr c =>
      match cur.2 with
      | String d s' => if chr_ok ic c d then [((Some d, s'), [])] else []
      | EmptyString => []
      end
  | Cls p =>
      match cur.2 with
      | String d s' => if cls_ok ic p d then [((Some d, s'), [])] else []
      | EmptyString => []
      end
  | Rep p lo hi => (λ c, (c, [])) <$> rep (cls_ok ic p) lo hi cur.1 cur.2
  | Bnd => if at_boundary cur then [(cur, [])] else []
  | Seq r1 r2 =>
      '(c1, g1) ← run ic r1 cur;
      '(c2, g2) ← run ic r2 c1;
      [(c2, g1 ++ g2)]
  | Alt r1 r2 => run ic r1 cur ++ run ic r2 cur
  | Grp r1 =>
      '(c1, g1) ← run ic r1 cur;
      [(c1, consumed cur.2 c1.2 :: g1)]
  end.

(** A match: its text and the texts of its groups. *)
Definition hit : Type := string * list string.

(** [re.search]: the first position, from the left, where the pattern
    matches. *)
Fixpoint search_from (ic : bool) (r : regex) (prev : option ascii) (s : string)
    : option hit :=
  match run ic r (prev, s) with
  | (c1, gs) :: _ => Some (consumed s c1.2, gs)
  | [] =>
      match s with
      | String c s' => search_from ic r (Some c) s'
      | EmptyString => None
      end
  end.

Definition search (ic : bool) (r : regex) (text : string) : option hit :=
  search_from ic r None text.

(** [re.finditer]: the non-overlapping matches from the left.  After a
    match of [n ≥ 1] characters the scan resumes behind it ([skip] counts
    the characters of the match still to pass); none of the assistant's
    patterns matches the empty text ([patterns_not_nullable] below). *)
Fixpoint finditer_from (ic : bool) (r : regex) (skip : nat)
    (prev : option ascii) (s : string) : list hit :=
  let next k :=
    match s with
    | String c s' => finditer_from ic r k (Some c) s'
    | EmptyString => []
    end in
  match skip with
  | S k => next k
  | O =>
      match run ic r (prev, s) with
      | (c1, gs) :: _ =>
          (consumed s c1.2, gs)
            :: next (String.length s - String.length c1.2 - 1)
      | [] => next 0
      end
  end.

Definition finditer (ic : bool) (r : regex) (text : string) : list hit :=
  finditer_from ic r 0 None text.

(** [re.findall] of a pattern with at most one group gives strings: the
    group, or the whole match when there is no group. *)
Definition findall (ic : bool) (r : regex) (text : string) : list string :=
  (λ h : hit, match h.2 with g :: _ => g | [] => h.1 end) <$> finditer ic r text.

(** [re.findall] of a pattern with several groups gives the tuples of
    group texts. *)
Definition findall_groups (ic : bool) (r : regex) (text : string) : list (list string) :=
  snd <$> finditer ic r text.

End Re.

Import PyStr Re.

(** ** Python values, exceptions *)

(** The values a field of an [email_data] dict is modelled to hold. *)
Inductive pyval : Type :=
| PStr (s : string)
| PNone
| PInt (n : Z).

Inductive exn : Type :=
| KeyError (key : string)
| AttributeError
| TypeError
| ValueError
| UnboundLocalError (var : string).

Inductive result (A : Type) : Type :=
| Ok (a : A)
| Raise (e : exn).
Arguments Ok {A} a.
Arguments Raise {A} e.

Definition bind {A B} (m : result A) (k : A → result B) : result B :=
  match m with
  | Ok a => k a
  | Raise e => Raise e
  end.

Notation "x ←! m ; k" := (bind m (λ x, k))
  (at level 20, m at level 100, k at level 200, only parsing).

(** [d[key]] *)
Definition getitem {V} (d : gmap string V) (key : string) : result V :=
  match d !! key with
  | Some v => Ok v
  | None => Raise (KeyError key)
  end.

(** [bool(v)] *)
Definition truthy (v : pyval) : bool :=
  match v with
  | PStr s => negb (String.eqb s EmptyString)
  | PNone => false
  | PInt n => negb (n =? 0)%Z
  end.

(** [str(v)], as an f-string formats a field *)
Definition py_str (v : pyval) : string :=
  match v with
  | PStr s => s
  | PNone => "None"
  | PInt n => pretty n
  end.

(** A [str] method called on [v]: an [AttributeError] on the other types. *)
Definition as_str (v : pyval) : result string :=
  match v with
  | PStr s => Ok s
  | _ => Raise AttributeError
  end.

(** [v == s] for a string [s] *)
Definition eq_str (v : pyval) (s : string) : bool :=
  match v with
  | PStr x => String.eqb x s
  | _ => false
  end.

(** ** [str.format] with keyword arguments

    The template is cut into literal text and replacement fields
    ([{name}], with [{{] and [}}] for literal braces); the fields are
    plain names, as in the assistant's templates. *)
Inductive segment : Type :=
| Text (c : ascii)
| Field (name : string).

Fixpoint parse_template (field : option string) (t : string) : option (list segment) :=
  match t with
  | EmptyString =>
      match field with
      | None => Some []
      | Some _ => None
      end
  | String c t' =>
      match field with
      | Some name =>
          if Ascii.eqb c "}"
          then (Field (String.rev name) ::.) <$> parse_template None t'
          else parse_template (Some (String c name)) t'
      | None =>
          if Ascii.eqb c "{" then
            match t' with
            | String "{" t'' => (Text "{" ::.) <$> parse_template None t''
            | _ => parse_template (Some EmptyString) t'
            end
          else if Ascii.eqb c "}" then
            match t' with
            | String "}" t'' => (Text "}" ::.) <$> parse_template None t''
            | _ => None
            end
          else (Text c ::.) <$> parse_template None t'
      end
  end.

Fixpoint fill (segs : list segment) (kwargs : gmap string string) : result string :=
  match segs with
  | [] => Ok EmptyString
  | Text c :: segs' => rest ←! fill segs' kwargs; Ok (String c rest)
  | Field name :: segs' =>
      match kwargs !! name with
      | Some v => rest ←! fill segs' kwargs; Ok (v +:+ rest)
      | None => Raise (KeyError name)
      end
  end.

Definition format (template : string) (kwargs : gmap string string) : result string :=
  match parse_template None template with
  | Some segs => fill segs kwargs
  | None => Raise ValueError
  end.

(** ** The [EmailAssistant] class *)

(** Iteration order of a Python [set] built from a list of strings, as
    [list(set(xs))] shows it: an enumeration without repetition of the
    members of [xs].  CPython's order follows the strings' hashes, which
    are salted anew for every interpreter process; it is fixed within one
    process, and nothing else is assumed of it. *)
Class SetOrder : Type := {
  list_set : list string → list string;
  list_set_perm : ∀ xs, list_set xs ≡ₚ remove_dups xs
}.

(** A row of the [knowledge_base] table. *)
Record kb_row : Type := {
  category : string;
  kb_keywords : string;
  solution : string;
  escalation_info : string
}.

(** A row of the [emails] table, keyed by its [id]. *)
Record email_row : Type := {
  sender : string;
  subject : string;
  body : string;
  priority : string;
  sentiment : string;
  keywords : string;
  contact_info : string;
  requirements : string;
  ai_response : string;
  status : string
}.

Record database : Type := {
  emails : gmap Z email_row;
  knowledge_base : list kb_row
}.

Module EmailAssistant.

Definition urgent_keywords : list string :=
  [ "urgent"; "critical"; "emergency"; "asap"; "immediately"; "cannot access";
    "system down"; "not working"; "broken"; "error"; "failed"; "blocked";
    "deadline"; "production"; "outage"; "severe"; "major issue" ].

Definition dquote : string := String (ascii_of_N 34) EmptyString.

Definition account_access : kb_row :=
  {| category := "account_access";
     kb_keywords := "login, password, access, account, locked, authentication, signin, credentials";
     solution := "For account access issues: 1) Try clearing browser cache and cookies 2) Reset password using " +:+ dquote +:+ "Forgot Password" +:+ dquote +:+ " link 3) Check if caps lock is on 4) Try different browser or incognito mode";
     escalation_info := "If issue persists after basic troubleshooting, escalate to security team for account unlock" |}.

Definition technical_issues : kb_row :=
  {| category := "technical_issues";
     kb_keywords := "error, bug, broken, not working, technical, system, crash, freeze, slow";
     solution := "For technical issues: 1) Check internet connection 2) Clear browser cache 3) Update browser to latest version 4) Try different device 5) Check system status page";
     escalation_info := "Complex technical issues should be forwarded to technical support team" |}.

Definition billing_payment : kb_row :=
  {| category := "billing_payment";
     kb_keywords := "billing, payment, invoice, charge, refund, subscription, price, cost, money";
     solution := "For billing inquiries: 1) Check your billing portal for invoice details 2) Verify payment method is valid 3) Contact billing support for refund requests";
     escalation_info := "Billing disputes require finance team approval" |}.

Definition feature_request : kb_row :=
  {| category := "feature_request";
     kb_keywords := "feature, request, suggestion, enhancement, improvement, new, add, update";
     solution := "Thank you for your feature suggestion! We appreciate your feedback. Please visit our feature request portal to submit detailed requirements.";
     escalation_info := "Feature requests should be logged with product team for roadmap consideration" |}.

Definition integration_api : kb_row :=
  {| category := "integration_api";
     kb_keywords := "api, integration, webhook, developer, code, sdk, documentation, endpoint";
     solution := "For API/integration support: 1) Check our developer documentation 2) Verify API key is valid 3) Ensure proper authentication headers 4) Check rate limits";
     escalation_info := "Complex integration issues require developer support team assistance" |}.

Definition knowledge_entries : list kb_row :=
  [ account_access; technical_issues; billing_payment; feature_request;
    integration_api ].

(** [INSERT OR REPLACE] with a fresh autoincrement id adds the rows. *)
Definition load_knowledge_base (db : database) : database :=
  {| emails := emails db;
     knowledge_base := knowledge_base db ++ knowledge_entries |}.

Definition template_urgent_negative : string :=
"Dear {sender_name},

Thank you for reaching out, and I sincerely apologize for the urgent issue you're experiencing. I understand how critical this situation is for you.

I'm prioritizing your request and escalating it to our specialized team immediately. Here's what we're doing to resolve this:

{solution}

Expected resolution time: Within 2 hours
Ticket reference: #{ticket_id}

I'll personally monitor this case and update you every 30 minutes until resolved. You can also reach our emergency support line at +1-800-SUPPORT.

We truly appreciate your patience during this critical situation.

Best regards,
AI Support Assistant
Customer Success Team".

Definition template_normal_positive : string :=
"Hello {sender_name},

Thank you for your message! We're delighted to hear from you and appreciate your continued trust in our services.

{solution}

{additional_info}

If you need any further assistance or have additional questions, please don't hesitate to reach out. We're here to ensure you have the best possible experience.

Best regards,
AI Support Assistant
Customer Success Team".

Definition template_normal_neutral : string :=
"Hello {sender_name},

Thank you for contacting us. We're here to help with your inquiry.

{solution}

{additional_info}

If this doesn't resolve your issue or if you have any other questions, please let us know. We're committed to providing you with the support you need.

Best regards,
AI Support Assistant
Customer Success Team".

Definition template_urgent_neutral : string :=
"Dear {sender_name},

Thank you for your urgent request. I understand the importance of resolving this quickly.

I'm prioritizing your case and here's how we can address this:

{solution}

Expected resolution time: Within 4 hours
Priority ticket: #{ticket_id}

I'll keep you updated on our progress. For immediate assistance, please call our priority support line.

Best regards,
AI Support Assistant
Customer Success Team".

Definition load_response_templates : gmap string string :=
  list_to_map
    [ ("urgent_negative", template_urgent_negative);
      ("normal_positive", template_normal_positive);
      ("normal_neutral", template_normal_neutral);
      ("urgent_neutral", template_urgent_neutral) ].

Definition response_templates : gmap string string := load_response_templates.

(** *** Sentiment fallback *)

Definition positive_words : list string :=
  [ "thank"; "great"; "excellent"; "love"; "amazing"; "perfect"; "wonderful" ].
Definition negative_words : list string :=
  [ "problem"; "issue"; "error"; "broken"; "frustrated"; "angry"; "terrible"; "awful" ].

Definition rule_based_sentiment (text : string) : string * Q :=
  let text_lower := lower text in
  let positive_count := sum_ones (λ word, contains word text_lower) positive_words in
  let negative_count := sum_ones (λ word, contains word text_lower) negative_words in
  if negative_count <? positive_count then ("positive", 0.7%Q)
  else if positive_count <? negative_count then ("negative", 0.7%Q)
  else ("neutral", 0.6%Q).

(** *** Priority *)

(** The word [w] between two word boundaries. *)
Definition whole_word (w : string) : regex := seqs [Bnd; lit w; Bnd].

Definition time_patterns : list regex :=
  [ whole_word "asap"; whole_word "immediately"; whole_word "urgent";
    whole_word "critical"; whole_word "emergency"; whole_word "deadline";
    whole_word "today"; whole_word "now" ].

Definition determine_priority (subject body : string) : string :=
  let text := lower (subject +:+ " " +:+ body) in
  let urgent_score := sum_ones (λ keyword, contains keyword text) urgent_keywords in
  let time_urgency :=
    sum_ones (λ pattern, bool_decide (is_Some (search false pattern text))) time_patterns in
  let total_urgency := urgent_score + time_urgency in
  if 2 <=? total_urgency then "urgent" else "normal".

(** *** Keywords *)

(** One group between two word boundaries: any of the words [ws]. *)
Definition any_word (ws : list string) : regex :=
  seqs [Bnd; Grp (alts (lit <$> ws)); Bnd].

Definition tech_patterns : list regex :=
  [ any_word ["api"; "sdk"; "webhook"; "integration"; "database"; "server"; "application"];
    any_word ["error code"; "bug"; "crash"; "timeout"; "connection"];
    any_word ["account"; "login"; "password"; "authentication"; "access"];
    any_word ["billing"; "payment"; "invoice"; "subscription"; "refund"] ].

(** The list [keywords] as it stands before the final de-duplication. *)
Definition collected_keywords (text : string) : list string :=
  (tech_patterns ≫= λ pattern, findall true pattern text)
  ++ List.filter (λ keyword, contains keyword (lower text)) urgent_keywords.

Definition extract_keywords `{SetOrder} (text : string) : list string :=
  take 10 (list_set (collected_keywords text)).

(** *** Contact information *)

(** An optional character of a set; the set of a hyphen, a dot or
    white space. *)
Definition opt (p : ascii → bool) : regex := Rep p 0 (Some 1).
Definition separator (c : ascii) : bool := one_of "-." c || space_char c.

Definition phone_pattern : regex :=
  Grp (seqs [ opt (one_of "+"); Rep digit_char 1 (Some 3); opt separator;
              opt (one_of "("); Rep digit_char 3 (Some 3); opt (one_of ")");
              opt separator; Rep digit_char 3 (Some 3); opt separator;
              Rep digit_char 4 (Some 4) ]).

Definition email_pattern : regex :=
  seqs [ Bnd;
         Rep (λ c, isalpha c || isdigit c || one_of "._%+-" c) 1 None;
         Chr "@";
         Rep (λ c, isalpha c || isdigit c || one_of ".-" c) 1 None;
         Chr ".";
         Rep (λ c, isupper c || one_of "|" c || islower c) 2 None;
         Bnd ].

Definition social_pattern : regex :=
  Grp (alts [ seqs [Chr "@"; Rep word_char 1 None];
              seqs [lit "linkedin.com/in/"; Rep word_char 1 None];
              seqs [lit "twitter.com/"; Rep word_char 1 None] ]).

Definition no_contact_info : string := "No additional contact info found".

Definition contact_items (text : string) : list string :=
  let phones := findall false phone_pattern text in
  let emails := findall false email_pattern text in
  let social := findall true social_pattern text in
  (match phones with p :: _ => ["Phone: " +:+ p] | [] => [] end)
  ++ (match emails with e :: _ => ["Alt Email: " +:+ e] | [] => [] end)
  ++ (match social with s :: _ => ["Social: " +:+ s] | [] => [] end).

Definition extract_contact_info (text : string) : string :=
  let contact_info := contact_items text in
  match contact_info with
  | _ :: _ => join "; " contact_info
  | [] => no_contact_info
  end.

(** *** Requirements *)

(** Two groups: one of the trigger phrases, then, after a space, the
    clause up to the next full stop, exclamation or question mark. *)
Definition trigger_clause (triggers : list string) : regex :=
  seqs [ Grp (alts (lit <$> triggers)); Chr " ";
         Grp (Rep (λ c, negb (one_of ".!?" c)) 0 None) ].

Definition requirement_patterns : list regex :=
  [ trigger_clause ["need"; "want"; "require"; "request"; "looking for"; "help with"];
    trigger_clause ["can you"; "could you"; "please"];
    trigger_clause ["i would like"; "i want"; "i need"] ].

Definition general_inquiry : string := "General support inquiry".

(** What one pattern adds to [requirements]. *)
Definition pattern_requirements (pattern : regex) (text : string) : list string :=
  let matches := findall_groups true pattern text in
  List.filter (λ requirement, 10 <? String.length requirement)
    ((λ m, strip (join " " m)) <$> take 3 matches).

Definition kept_requirements (text : string) : list string :=
  requirement_patterns ≫= λ pattern, pattern_requirements pattern text.

Definition extract_requirements (subject body : string) : string :=
  let text := subject +:+ " " +:+ body in
  let requirements := kept_requirements text in
  match requirements with
  | _ :: _ => join "; " requirements
  | [] => general_inquiry
  end.

(** *** Knowledge-base matching *)

Definition kb_keywords_list (row : kb_row) : list string :=
  strip <$> split "," (kb_keywords row).

Definition overlap (keywords : list string) (row : kb_row) : nat :=
  size (list_to_set keywords ∩ list_to_set (kb_keywords_list row) : gset string).

Definition text_similarity (text : string) (row : kb_row) : nat :=
  sum_ones (λ kw, contains (lower kw) (lower text)) (kb_keywords_list row).

Definition total_score (keywords : list string) (text : string) (row : kb_row) : nat :=
  overlap keywords row * 2 + text_similarity text row.

(** The loop's state: [best_match] and [best_score]. *)
Definition best : Type := option (string * string) * nat.

Definition consider (keywords : list string) (text : string) (st : best) (row : kb_row) : best :=
  let total_score := total_score keywords text row in
  if st.2 <? total_score
  then (Some (solution row, escalation_info row), total_score)
  else st.

Definition generic_solution : string * string :=
  ("I'll look into your inquiry and get back to you with a detailed response shortly.",
   "General inquiry - route to appropriate team based on content").

Definition find_best_solution (kb_entries : list kb_row)
    (keywords : list string) (subject body : string) : string * string :=
  let text := subject +:+ " " +:+ body in
  let '(best_match, _) := foldl (consider keywords text) (None, 0) kb_entries in
  match best_match with
  | Some found => found
  | None => generic_solution
  end.

(** The call from [generate_ai_response], whose arguments are whatever
    the dict holds: [subject + " " + body] is a [TypeError] unless both
    are strings. *)
Definition find_best_solution_dyn (kb_entries : list kb_row)
    (keywords : list string) (subject body : pyval) : result (string * string) :=
  match subject, body with
  | PStr s, PStr b => Ok (find_best_solution kb_entries keywords s b)
  | _, _ => Raise TypeError
  end.

(** *** Response synthesis *)

Definition fallback_response (sender_name : string) : string :=
  "Dear " +:+ sender_name +:+ ",

Thank you for contacting us. We've received your message and will respond within 24 hours.

Best regards,
Support Team".

(** [email_data['sender'].split('@')[0].replace('.', ' ').title()] *)
Definition sender_name_of (email_data : gmap string pyval) : result string :=
  v ←! getitem email_data "sender";
  s ←! as_str v;
  Ok (title (replace "." " " (hd EmptyString (split "@" s)))).

(** [template_key], after the fallback. *)
Definition template_key (priority sentiment : string) : string :=
  let key := priority +:+ "_" +:+ sentiment in
  if bool_decide (key ∈ dom response_templates)
  then key
  else "normal_neutral".

(** The keyword arguments of [template.format(...)]. *)
Definition response_kwargs (sender_name solution ticket_id additional_info : string)
    : gmap string string :=
  list_to_map [ ("sender_name", sender_name); ("solution", solution);
                ("ticket_id", ticket_id); ("additional_info", additional_info) ].

(** The body of the [try] block after [sender_name] is bound.  [stamp]
    is the clock reading [datetime.now().strftime('%Y%m%d%H%M%S')]. *)
Definition synthesize (kb_entries : list kb_row) (stamp : string)
    (email_data : gmap string pyval) (sender_name : string) : result string :=
  sentiment ←! getitem email_data "sentiment";
  priority ←! getitem email_data "priority";
  kw ←! getitem email_data "keywords";
  keywords ←! (if truthy kw then s ←! as_str kw; Ok (split ", " s) else Ok []);
  subject ←! getitem email_data "subject";
  body ←! getitem email_data "body";
  found ←! find_best_solution_dyn kb_entries keywords subject body;
  template ←! getitem response_templates
                (template_key (py_str priority) (py_str sentiment));
  let ticket_id := "SUP" +:+ stamp in
  body ←! as_str body;
  let additional_info :=
    if contains "thank" (lower body)
    then "We truly appreciate your positive feedback!"
    else if eq_str priority "urgent"
    then "This case has been escalated. " +:+ found.2
    else EmptyString in
  format template (response_kwargs sender_name found.1 ticket_id additional_info).

(** [try: ... except Exception: return f"Dear {sender_name}, ..."].  The
    handler reads the local [sender_name], which is bound only once the
    first statement of the [try] block has completed. *)
Definition generate_ai_response (kb_entries : list kb_row) (stamp : string)
    (email_data : gmap string pyval) : result string :=
  match sender_name_of email_data with
  | Ok sender_name =>
      match synthesize kb_entries stamp email_data sender_name with
      | Ok response => Ok response
      | Raise _ => Ok (fallback_response sender_name)
      end
  | Raise _ => Raise (UnboundLocalError "sender_name")
  end.

End EmailAssistant.

(** ** The [/api/regenerate_response] route *)

Inductive http_reply : Type :=
| Json200 (ai_response : string)
| NotFound404
| Error500 (e : exn).

Definition stored_fields (row : email_row) : gmap string pyval :=
  list_to_map
    [ ("sender", PStr (sender row)); ("subject", PStr (subject row));
      ("body", PStr (body row)); ("priority", PStr (priority row));
      ("sentiment", PStr (sentiment row)); ("keywords", PStr (keywords row)) ].

Definition set_ai_response (new_response : string) (row : email_row) : email_row :=
  {| sender := sender row; subject := subject row; body := body row;
     priority := priority row; sentiment := sentiment row;
     keywords := keywords row; contact_info := contact_info row;
     requirements := requirements row; ai_response := new_response;
     status := status row |}.

(** [email_id] is [data.get('email_id')]: [None] when the request names
    no id.  The reply comes with the database as the route leaves it. *)
Definition regenerate_response (stamp : string) (email_id : option Z)
    (db : database) : http_reply * database :=
  match email_id ≫= λ i, (λ row, (i, row)) <$> emails db !! i with
  | None => (NotFound404, db)
  | Some (i, row) =>
      let email_data := stored_fields row in
      match EmailAssistant.generate_ai_response (knowledge_base db) stamp email_data with
      | Ok new_response =>
          (Json200 new_response,
           {| emails := alter (set_ai_response new_response) i (emails db);
              knowledge_base := knowledge_base db |})
      | Raise e => (Error500 e, db)
      end
  end.

(** * Properties *)

(** ** Strings *)
Section strings.
Implicit Types (s t u : string) (c d : ascii).

Lemma app_nil_l s : EmptyString +:+ s = s.
Proof. reflexivity. Qed.

Lemma app_cons c s t : String c s +:+ t = String c (s +:+ t).
Proof. reflexivity. Qed.

Lemma app_nil_r s : s +:+ EmptyString = s.
Proof. induction s as [|c s IH]; [done|]. by rewrite app_cons, IH. Qed.

Lemma app_assoc s t u : (s +:+ t) +:+ u = s +:+ t +:+ u.
Proof. induction s as [|c s IH]; [done|]. by rewrite !app_cons, IH. Qed.

Lemma app_length s t : String.length (s +:+ t) = String.length s + String.length t.
Proof. induction s as [|c s IH]; [done|]. rewrite app_cons. simpl. by rewrite IH. Qed.

Lemma lower_app s t : lower (s +:+ t) = lower s +:+ lower t.
Proof. induction s as [|c s IH]; [done|]. rewrite app_cons. simpl. by rewrite IH. Qed.

Lemma lower_length s : String.length (lower s) = String.length s.
Proof. induction s as [|c s IH]; [done|]. simpl. by rewrite IH. Qed.

Lemma char_lower_idemp c : char_lower (char_lower c) = char_lower c.
Proof. by destruct c as [[] [] [] [] [] [] [] []]. Qed.

Lemma lower_idemp s : lower (lower s) = lower s.
Proof. induction s as [|c s IH]; [done|]. simpl. by rewrite char_lower_idemp, IH. Qed.

(** A text whose lower-casing splits in two splits the same way. *)
Lemma lower_split s a b :
  lower s = a +:+ b → ∃ s1 s2, s = s1 +:+ s2 ∧ lower s1 = a ∧ lower s2 = b.
Proof.
  revert a. induction s as [|c s IH]; intros [|d a] H; simplify_eq/=.
  - by exists EmptyString, EmptyString.
  - rewrite app_nil_l in H. by exists EmptyString, (String c s).
  - rewrite app_cons in H. simplify_eq.
    destruct (IH a) as (s1 & s2 & -> & <- & <-); [done|].
    by exists (String c s1), s2.
Qed.

End strings.

(** [needle] occurs in [hay], literally or up to letter case. *)
Definition occurs_in (needle hay : string) : Prop :=
  ∃ pre post, hay = pre +:+ needle +:+ post.

Definition occurs_ignoring_case (needle hay : string) : Prop :=
  ∃ pre mid post, hay = pre +:+ mid +:+ post ∧ lower mid = lower needle.

Section occurrences.
Implicit Types (s t needle hay : string).

Lemma startswith_spec p s : startswith p s = true ↔ ∃ post, s = p +:+ post.
Proof.
  revert s. induction p as [|a p IH]; intros s; simpl.
  - split; [by exists s|done].
  - destruct s as [|b s]; [split; [done|by intros [? ?]]|].
    destruct (Ascii.eqb_spec a b) as [->|Hne].
    + rewrite IH. split; intros [post H]; exists post.
      * by rewrite app_cons, H.
      * rewrite app_cons in H. by simplify_eq.
    + split; [done|]. intros [post H]. rewrite app_cons in H. by simplify_eq.
Qed.

Lemma contains_spec needle hay : contains needle hay = true ↔ occurs_in needle hay.
Proof.
  induction hay as [|c hay IH]; simpl.
  - rewrite orb_false_r, startswith_spec. split.
    + intros [post H]. by exists EmptyString, post.
    + intros ([|? pre] & post & H); [by exists post|]. by rewrite app_cons in H.
  - rewrite orb_true_iff, startswith_spec, IH. split.
    + intros [[post H]|(pre & post & H)].
      * by exists EmptyString, post.
      * exists (String c pre), post. by rewrite app_cons, H.
    + intros ([|d pre] & post & H).
      * left. by exists post.
      * right. rewrite app_cons in H. simplify_eq. by exists pre, post.
Qed.

Lemma contains_lower_spec needle hay :
  contains (lower needle) (lower hay) = true ↔ occurs_ignoring_case needle hay.
Proof.
  rewrite contains_spec. split.
  - intros (a & b & H).
    apply lower_split in H as (pre & rest & -> & <- & H).
    apply lower_split in H as (mid & post & -> & H & <-).
    by exists pre, mid, post.
  - intros (pre & mid & post & -> & H).
    exists (lower pre), (lower post). by rewrite !lower_app, H.
Qed.

#[global] Instance occurs_in_dec needle hay : Decision (occurs_in needle hay).
Proof.
  destruct (contains needle hay) eqn:E; [left|right].
  - by apply contains_spec.
  - rewrite <-contains_spec, E. done.
Defined.

#[global] Instance occurs_ignoring_case_dec needle hay :
  Decision (occurs_ignoring_case needle hay).
Proof.
  destruct (contains (lower needle) (lower hay)) eqn:E; [left|right].
  - by apply contains_lower_spec.
  - rewrite <-contains_lower_spec, E. done.
Defined.

End occurrences.

(** [sum(1 for x in xs if cond(x))] counts the members that pass. *)
Lemma sum_ones_count {A} (cond : A → bool) (P : A → Prop) `{!∀ x, Decision (P x)} xs :
  (∀ x, cond x = true ↔ P x) →
  sum_ones cond xs = length (filter P xs).
Proof.
  intros Hc. induction xs as [|x xs IH]; [done|]. simpl.
  rewrite filter_cons, IH. pose proof (Hc x) as Hx.
  destruct (cond x), (decide (P x)) as [HP|HP]; simpl; try done.
  - destruct HP. by apply Hx.
  - apply Hx in HP. discriminate.
Qed.

(** ** Sentiment fallback *)
Section sentiment.
Import EmailAssistant.

(** How many words of a lexicon occur in the text, whatever the case of
    the text's letters. *)
Definition lexicon_count (lexicon : list string) (text : string) : nat :=
  length (filter (λ word, occurs_ignoring_case word text) lexicon).

Lemma lexicon_count_sum lexicon text :
  Forall (λ w, lower w = w) lexicon →
  sum_ones (λ word, contains word (lower text)) lexicon = lexicon_count lexicon text.
Proof.
  intros Hl. unfold lexicon_count. induction Hl as [|w ws Hw _ IH]; [done|].
  simpl. rewrite filter_cons, IH.
  destruct (decide _) as [Ho|Ho];
    rewrite <-contains_lower_spec, Hw in Ho; by destruct (contains w _).
Qed.

(** C2.  The fallback counts the positive and the negative lexicon words
    that occur in the text as substrings, ignoring case, and answers
    positive with confidence 0.7 when the positive count is larger,
    negative with 0.7 when the negative count is larger, and neutral with
    0.6 on every tie, the tie at zero included.  The answer is a function
    of the text alone. *)
Theorem rule_based_sentiment_majority (text : string) :
  rule_based_sentiment text =
    match lexicon_count positive_words text ?= lexicon_count negative_words text with
    | Gt => ("positive", 0.7%Q)
    | Lt => ("negative", 0.7%Q)
    | Eq => ("neutral", 0.6%Q)
    end.
Proof.
  unfold rule_based_sentiment.
  rewrite !lexicon_count_sum by (by repeat constructor).
  destruct (Nat.compare_spec (lexicon_count positive_words text)
              (lexicon_count negative_words text)) as [E|L|G].
  - rewrite E, Nat.ltb_irrefl. done.
  - apply Nat.ltb_lt in L as L'. rewrite L'.
    by destruct (Nat.ltb_spec (lexicon_count negative_words text)
                   (lexicon_count positive_words text)); [lia|].
  - apply Nat.ltb_lt in G as G'. by rewrite G'.
Qed.

End sentiment.

(** ** The matcher *)

(** The character before the position reached after reading [pre] from a
    position whose preceding character is [prev]. *)
Fixpoint last_or (prev : option ascii) (pre : string) : option ascii :=
  match pre with
  | EmptyString => prev
  | String c pre' => last_or (Some c) pre'
  end.

(** [w'] is [w], letter for letter, under the flag [ic]. *)
Definition agrees (ic : bool) (w w' : string) : Prop :=
  if ic then lower w = lower w' else w = w'.

Section matcher.
Implicit Types (r : regex) (cur : cursor) (s t w : string) (ic : bool).

Lemma last_or_app prev s t : last_or prev (s +:+ t) = last_or (last_or prev s) t.
Proof. revert prev. induction s as [|c s IH]; intros prev; [done|]. by rewrite app_cons; simpl. Qed.

Lemma run_seq_elem ic r1 r2 cur res :
  res ∈ run ic (Seq r1 r2) cur ↔
  ∃ c1 g1 g2, (c1, g1) ∈ run ic r1 cur ∧ (res.1, g2) ∈ run ic r2 c1 ∧ res.2 = g1 ++ g2.
Proof.
  simpl. rewrite list_elem_of_bind. split.
  - intros ([c1 g1] & H & H1). apply list_elem_of_bind in H as ([c2 g2] & H & H2).
    apply list_elem_of_singleton in H as ->. by exists c1, g1, g2.
  - intros (c1 & g1 & g2 & H1 & H2 & Hg). exists (c1, g1). split; [|done].
    apply list_elem_of_bind. exists (res.1, g2). split; [|done].
    apply list_elem_of_singleton. destruct res; simpl in *; by subst.
Qed.

Lemma run_bnd_elem ic cur res :
  res ∈ run ic Bnd cur ↔ at_boundary cur = true ∧ res = (cur, []).
Proof.
  simpl. destruct (at_boundary cur).
  - rewrite list_elem_of_singleton. split; [by intros ->|by intros [_ ->]].
  - rewrite elem_of_nil. split; [done|by intros [? _]].
Qed.

Lemma agrees_cons ic c d w w' :
  agrees ic (String c w) (String d w') ↔ chr_ok ic c d = true ∧ agrees ic w w'.
Proof.
  unfold chr_ok, agrees. destruct ic; simpl; rewrite Ascii.eqb_eq.
  - split; [intros [= -> ->]; done|intros [-> ->]; done].
  - split; [intros [= -> ->]; done|intros [-> ->]; done].
Qed.

(** A literal matches exactly the texts that agree with it. *)
Lemma run_lit_elem ic w prev s res :
  res ∈ run ic (lit w) (prev, s) ↔
  ∃ w' s', s = w' +:+ s' ∧ agrees ic w w' ∧ res = ((last_or prev w', s'), []).
Proof.
  revert prev s res. induction w as [|c w IH]; intros prev s res.
  - simpl. rewrite list_elem_of_singleton. split.
    + intros ->. exists EmptyString, s. by destruct ic.
    + intros ([|d w'] & s' & -> & Ha & ->); [done|]. by destruct ic.
  - change (lit (String c w)) with (Seq (Chr c) (lit w)).
    rewrite run_seq_elem. split.
    + intros (c1 & g1 & g2 & H1 & H2 & Hg). simpl in H1.
      destruct s as [|d s]; [by apply elem_of_nil in H1|].
      destruct (chr_ok ic c d) eqn:Hc; [|by apply elem_of_nil in H1].
      apply list_elem_of_singleton in H1. simplify_eq.
      apply IH in H2 as (w' & s' & -> & Ha & H2).
      exists (String d w'), s'. rewrite app_cons. split; [done|].
      split; [by apply agrees_cons|].
      destruct res; simpl in *. by simplify_eq.
    + intros ([|d w'] & s' & -> & Ha & ->).
      { by destruct ic. }
      apply agrees_cons in Ha as [Hc Ha].
      exists (Some d, w' +:+ s'), [], []. split_and!; [|apply IH; eauto|done].
      rewrite app_cons. simpl. rewrite Hc. by apply list_elem_of_singleton.
Qed.

(** [re.search] succeeds exactly when the pattern matches at some
    position of the text. *)
Lemma search_from_is_Some ic r prev s :
  is_Some (search_from ic r prev s) ↔
  ∃ pre post res, s = pre +:+ post ∧ res ∈ run ic r (last_or prev pre, post).
Proof.
  revert prev. induction s as [|c s IH]; intros prev; simpl.
  - destruct (run ic r (prev, EmptyString)) as [|[c1 gs] l] eqn:E.
    + split; [by intros [? ?]|].
      intros ([|? ?] & post & res & H & Hr); [|done].
      rewrite app_nil_l in H. subst. simpl in Hr. rewrite E in Hr.
      by apply elem_of_nil in Hr.
    + split; [|by eauto]. intros _.
      exists EmptyString, EmptyString, (c1, gs). split; [done|].
      simpl. rewrite E. by left.
  - destruct (run ic r (prev, String c s)) as [|[c1 gs] l] eqn:E.
    + rewrite IH. split.
      * intros (pre & post & res & -> & Hr).
        by exists (String c pre), post, res.
      * intros ([|d pre] & post & res & H & Hr).
        { rewrite app_nil_l in H. subst. simpl in Hr. rewrite E in Hr.
          by apply elem_of_nil in Hr. }
        rewrite app_cons in H. simplify_eq. by exists pre, post, res.
    + split; [|by eauto]. intros _.
      exists EmptyString, (String c s), (c1, gs). split; [done|].
      simpl. rewrite E. by left.
Qed.

Lemma run_grp_elem ic r cur res :
  res ∈ run ic (Grp r) cur ↔
  ∃ g, (res.1, g) ∈ run ic r cur ∧ res.2 = consumed cur.2 res.1.2 :: g.
Proof.
  simpl. rewrite list_elem_of_bind. split.
  - intros ([c1 g1] & ->%list_elem_of_singleton & H). by exists g1.
  - intros (g & H & Hg). exists (res.1, g). split; [|done].
    apply list_elem_of_singleton. destruct res; simpl in *; by subst.
Qed.

(** *** Patterns that match no empty text

    On these the scan of [finditer_from] is the scan of [re.finditer]:
    every match moves the position forward. *)
Fixpoint nullable (r : regex) : bool :=
  match r with
  | Eps | Bnd => true
  | Chr _ | Cls _ => false
  | Rep _ lo _ => bool_decide (lo = 0)
  | Seq r1 r2 => nullable r1 && nullable r2
  | Alt r1 r2 => nullable r1 || nullable r2
  | Grp r1 => nullable r1
  end.

Lemma rep_elem_length ok lo hi prev s (c : cursor) :
  c ∈ rep ok lo hi prev s → String.length c.2 + lo ≤ String.length s.
Proof.
  revert lo hi prev. induction s as [|d s IH]; intros lo hi prev; simpl.
  - destruct lo; [|by intros ?%elem_of_nil].
    intros ->%list_elem_of_singleton. simpl. lia.
  - assert (c ∈ match lo with 0 => [(prev, String d s)] | S _ => [] end →
            String.length c.2 + lo ≤ S (String.length s)) as Hstop.
    { destruct lo; [|by intros ?%elem_of_nil].
      intros ->%list_elem_of_singleton. simpl. lia. }
    destruct (ok d && negb (bool_decide (hi = Some 0))); [|done].
    intros [H|H]%elem_of_app; [|by apply Hstop].
    apply IH in H. lia.
Qed.

Lemma run_length ic r cur res :
  res ∈ run ic r cur →
  String.length res.1.2 ≤ String.length cur.2
  ∧ (nullable r = false → String.length res.1.2 < String.length cur.2).
Proof.
  revert cur res.
  induction r as [|c|p|p lo hi| |r1 IH1 r2 IH2|r1 IH1 r2 IH2|r1 IH1]; intros cur res.
  - simpl. intros ->%list_elem_of_singleton. done.
  - destruct cur as [prev [|d s]]; [by intros ?%elem_of_nil|].
    change (run ic (Chr c) (prev, String d s))
      with (if chr_ok ic c d then [((Some d, s), @nil string)] else []).
    destruct (chr_ok ic c d); [|by intros ?%elem_of_nil].
    intros ->%list_elem_of_singleton. simpl. lia.
  - destruct cur as [prev [|d s]]; [by intros ?%elem_of_nil|].
    change (run ic (Cls p) (prev, String d s))
      with (if cls_ok ic p d then [((Some d, s), @nil string)] else []).
    destruct (cls_ok ic p d); [|by intros ?%elem_of_nil].
    intros ->%list_elem_of_singleton. simpl. lia.
  - change (run ic (Rep p lo hi) cur)
      with ((λ c : cursor, (c, @nil string)) <$> rep (cls_ok ic p) lo hi cur.1 cur.2).
    intros (c & -> & Hc%rep_elem_length)%list_elem_of_fmap. simpl.
    split; [lia|]. intros Hn%bool_decide_eq_false. lia.
  - intros [_ ->]%run_bnd_elem. done.
  - intros (c1 & g1 & g2 & [H1 H1']%IH1 & [H2 H2']%IH2 & _)%run_seq_elem.
    simpl in *. unfold cursor in *. split; [lia|]. intros [Hn|Hn]%andb_false_iff.
    + specialize (H1' Hn). lia.
    + specialize (H2' Hn). lia.
  - simpl. intros [[H H']%IH1|[H H']%IH2]%elem_of_app;
      (split; [done|]); intros [? ?]%orb_false_iff; auto.
  - intros (g & [H H']%IH1 & _)%run_grp_elem. done.
Qed.

End matcher.

(** ** Word occurrences and the priority *)

Definition first_char (s : string) : option ascii :=
  match s with
  | String c _ => Some c
  | EmptyString => None
  end.

Definition is_word (o : option ascii) : bool :=
  match o with
  | Some c => word_char c
  | None => false
  end.

(** [w] stands in [text] as a word of its own: it occurs there with no
    word character right before it and none right after it. *)
Definition occurs_as_word (w text : string) : Prop :=
  ∃ pre post, text = pre +:+ w +:+ post ∧
    is_word (last_or None pre) = false ∧ is_word (first_char post) = false.

(** [w] begins and ends with a word character. *)
Definition wordlike (w : string) : Prop :=
  is_word (first_char w) = true ∧ is_word (last_or None w) = true.

Section whole_words.
Import EmailAssistant.
Implicit Types (s t w : string).

Lemma last_or_nonempty prev c w : last_or prev (String c w) = last_or None (String c w).
Proof. done. Qed.

Lemma first_char_app w s : w ≠ EmptyString → first_char (w +:+ s) = first_char w.
Proof. by destruct w. Qed.

Lemma wordlike_nonempty w : wordlike w → w ≠ EmptyString.
Proof. by intros [H _] ->. Qed.

Lemma at_boundary_eq prev s :
  at_boundary (prev, s) = xorb (is_word prev) (is_word (first_char s)).
Proof. by destruct prev, s. Qed.

Lemma run_whole_word_elem w prev s res :
  wordlike w →
  res ∈ run false (whole_word w) (prev, s) ↔
  ∃ s', s = w +:+ s' ∧ is_word prev = false ∧ is_word (first_char s') = false ∧
        res = ((last_or None w, s'), []).
Proof.
  intros Hw. pose proof (wordlike_nonempty _ Hw) as Hne. destruct Hw as [Hf Hl].
  change (whole_word w) with (Seq Bnd (Seq (lit w) Bnd)).
  rewrite run_seq_elem. split.
  - intros (c1 & g1 & g2 & H1 & H2 & Hg).
    apply run_bnd_elem in H1 as [Hb [= -> ->]].
    apply run_seq_elem in H2 as (c2 & g3 & g4 & H2 & H3 & Hg2).
    apply run_lit_elem in H2 as (w' & s' & -> & Ha & [= -> ->]).
    unfold agrees in Ha. subst w'.
    apply run_bnd_elem in H3 as [Hb' H3].
    rewrite at_boundary_eq in Hb, Hb'.
    rewrite first_char_app, Hf in Hb by done.
    destruct w as [|c w]; [done|].
    change (last_or prev (String c w)) with (last_or None (String c w)) in Hb', H3.
    rewrite Hl in Hb'.
    exists s'. split; [done|].
    split; [by destruct (is_word prev)|].
    split; [by destruct (is_word (first_char s'))|].
    destruct res as [c3 g]; simpl in *. by simplify_eq.
  - intros (s' & -> & Hp & Hs & ->).
    exists (prev, w +:+ s'), [], []. split_and!; [| |done].
    + apply run_bnd_elem. split; [|done].
      by rewrite at_boundary_eq, first_char_app, Hf, Hp.
    + apply run_seq_elem. exists (last_or prev w, s'), [], []. split_and!; [| |done].
      * apply run_lit_elem. by exists w, s'.
      * destruct w as [|c w]; [done|].
        change (last_or prev (String c w)) with (last_or None (String c w)).
        apply run_bnd_elem. split; [|done].
        by rewrite at_boundary_eq, Hl, Hs.
Qed.

(** The pattern of a word between two boundaries is found exactly when
    the word stands in the text as a word of its own. *)
Lemma search_whole_word w text :
  wordlike w →
  is_Some (search false (whole_word w) text) ↔ occurs_as_word w text.
Proof.
  intros Hw. unfold search. rewrite search_from_is_Some. split.
  - intros (pre & post & res & -> & Hr).
    apply run_whole_word_elem in Hr as (s' & -> & Hp & Hs & _); [|done].
    by exists pre, s'.
  - intros (pre & post & -> & Hp & Hs).
    exists pre, (w +:+ post), ((last_or None w, post), []). split; [done|].
    apply run_whole_word_elem; [done|]. by exists post.
Qed.

Lemma occurs_as_word_in w text : occurs_as_word w text → occurs_in w text.
Proof. intros (pre & post & -> & _). by exists pre, post. Qed.

End whole_words.

Lemma sum_ones_pos {A} (cond : A → bool) xs x :
  x ∈ xs → cond x = true → 1 ≤ sum_ones cond xs.
Proof.
  induction 1 as [x xs|x y xs _ IH]; intros Hx; simpl.
  - rewrite Hx. lia.
  - specialize (IH Hx). destruct (cond y); lia.
Qed.

Section priority.
Import EmailAssistant.

(** The words of the time-urgency patterns, in the patterns' order. *)
Definition time_words : list string :=
  [ "asap"; "immediately"; "urgent"; "critical"; "emergency"; "deadline";
    "today"; "now" ].

Lemma time_patterns_words : time_patterns = whole_word <$> time_words.
Proof. reflexivity. Qed.

Lemma time_words_wordlike : Forall wordlike time_words.
Proof. repeat constructor. Qed.

(** The two counts of the scorer. *)
Definition keyword_hits (text : string) : nat :=
  length (filter (λ keyword, occurs_in keyword text) urgent_keywords).

Definition pattern_hits (text : string) : nat :=
  length (filter (λ pattern, is_Some (search false pattern text)) time_patterns).

Lemma determine_priority_counts (subject body : string) :
  let text := lower (subject +:+ " " +:+ body) in
  determine_priority subject body =
    (if decide (2 ≤ keyword_hits text + pattern_hits text) then "urgent" else "normal").
Proof.
  intros text. unfold determine_priority. fold text.
  rewrite (sum_ones_count _ (λ keyword, occurs_in keyword text))
    by (intros; apply contains_spec).
  rewrite (sum_ones_count _ (λ pattern, is_Some (search false pattern text)))
    by (intros; apply bool_decide_eq_true).
  fold (keyword_hits text) (pattern_hits text).
  destruct (Nat.leb_spec 2 (keyword_hits text + pattern_hits text));
    destruct (decide _); try done; lia.
Qed.

(** C1.  The priority is decided on the lower-cased text of the subject,
    a space and the body: it is urgent exactly when the number of urgent
    keywords occurring in that text as substrings plus the number of
    time-urgency patterns found in it is at least 2, and normal otherwise.
    Each pattern is one time word between two word boundaries, found
    exactly when the word stands in the text as a word of its own.  The
    priority is a function of the two strings alone. *)
Theorem determine_priority_threshold (subject body : string) :
  let text := lower (subject +:+ " " +:+ body) in
  determine_priority subject body =
    (if decide (2 ≤ keyword_hits text + pattern_hits text) then "urgent" else "normal")
  ∧ time_patterns = whole_word <$> time_words
  ∧ Forall (λ w, is_Some (search false (whole_word w) text) ↔ occurs_as_word w text)
      time_words.
Proof.
  intros text. split_and!.
  - apply determine_priority_counts.
  - reflexivity.
  - eapply Forall_impl; [apply time_words_wordlike|].
    intros w Hw. by apply search_whole_word.
Qed.

(** The words that are both an urgent keyword and a time-urgency pattern. *)
Definition doubly_listed : list string :=
  [ "urgent"; "critical"; "emergency"; "asap"; "immediately"; "deadline" ].

(** C9.  When one of the words urgent, critical, emergency, asap,
    immediately, deadline stands as a word of its own in the lower-cased
    text of subject, space and body, the priority is urgent: the word is
    an urgent keyword and a time-urgency pattern at once, so that its
    occurrence is counted once by each and the total reaches 2, whatever
    else the text holds. *)
Theorem doubly_listed_word_is_urgent (w subject body : string) :
  w ∈ doubly_listed →
  occurs_as_word w (lower (subject +:+ " " +:+ body)) →
  w ∈ urgent_keywords ∧ whole_word w ∈ time_patterns
  ∧ 1 ≤ keyword_hits (lower (subject +:+ " " +:+ body))
  ∧ 1 ≤ pattern_hits (lower (subject +:+ " " +:+ body))
  ∧ determine_priority subject body = "urgent".
Proof.
  intros Hw Ho. set (text := lower (subject +:+ " " +:+ body)) in *.
  assert (w ∈ urgent_keywords) as Hk.
  { unfold doubly_listed in Hw. unfold urgent_keywords.
    repeat (apply elem_of_cons in Hw as [->|Hw]; [by repeat constructor|]).
    by apply elem_of_nil in Hw. }
  assert (w ∈ time_words) as Ht.
  { unfold doubly_listed in Hw. unfold time_words.
    repeat (apply elem_of_cons in Hw as [->|Hw]; [by repeat constructor|]).
    by apply elem_of_nil in Hw. }
  assert (whole_word w ∈ time_patterns) as Hp.
  { rewrite time_patterns_words. by apply list_elem_of_fmap_2. }
  assert (is_Some (search false (whole_word w) text)) as Hs.
  { apply search_whole_word; [|done].
    by apply (proj1 (Forall_forall _ _) time_words_wordlike). }
  assert (1 ≤ keyword_hits text) as H1.
  { unfold keyword_hits.
    rewrite <-(sum_ones_count (λ keyword, contains keyword text))
      by (intros; apply contains_spec).
    eapply sum_ones_pos; [done|]. by apply contains_spec, occurs_as_word_in. }
  assert (1 ≤ pattern_hits text) as H2.
  { unfold pattern_hits.
    rewrite <-(sum_ones_count (λ pattern, bool_decide (is_Some (search false pattern text))))
      by (intros; apply bool_decide_eq_true).
    eapply sum_ones_pos; [done|]. by apply bool_decide_eq_true. }
  split_and!; try done.
  rewrite determine_priority_counts. fold text. destruct (decide _); [done|lia].
Qed.

End priority.

(** ** Knowledge-base matching *)
Section matching.
Import EmailAssistant.
Implicit Types (row : kb_row) (kb : list kb_row) (keywords : list string).

(** What the loop settles on among the rows it has seen: no row when
    every score is zero; otherwise the first row whose score is the
    largest, which is then positive. *)
Definition first_best (score : kb_row → nat) (kb : list kb_row)
    (choice : option kb_row) : Prop :=
  match choice with
  | None => Forall (λ row, score row = 0) kb
  | Some row =>
      ∃ i, kb !! i = Some row ∧ 0 < score row ∧
        (∀ j row', kb !! j = Some row' → score row' ≤ score row) ∧
        (∀ j row', j < i → kb !! j = Some row' → score row' < score row)
  end.

Definition answer (choice : option kb_row) : option (string * string) :=
  (λ row, (solution row, escalation_info row)) <$> choice.

Lemma consider_first_best keywords text kb :
  let score := total_score keywords text in
  ∃ choice, first_best score kb choice ∧
    foldl (consider keywords text) (None, 0) kb
    = (answer choice, from_option score 0 choice).
Proof.
  intros score. induction kb as [|row kb IH] using rev_ind.
  - exists None. by split; [constructor|].
  - destruct IH as (choice & Hc & Hf). rewrite foldl_snoc, Hf.
    unfold consider. simpl. fold (score row).
    destruct (Nat.ltb_spec (from_option score 0 choice) (score row)) as [Hlt|Hge].
    + exists (Some row). split; [|done]. exists (length kb). split_and!.
      * by rewrite lookup_app_r, Nat.sub_diag by done.
      * lia.
      * intros j row' Hj. apply lookup_snoc_Some in Hj as [[Hj Hj']|[_ ->]]; [|done].
        destruct choice as [best_row|]; simpl in *.
        -- destruct Hc as (i & _ & _ & Hmax & _). specialize (Hmax _ _ Hj'). lia.
        -- rewrite Forall_lookup in Hc. specialize (Hc _ _ Hj'). simpl in Hc. lia.
      * intros j row' Hj Hj'. rewrite lookup_app_l in Hj' by done.
        destruct choice as [best_row|]; simpl in *.
        -- destruct Hc as (i & _ & _ & Hmax & _). specialize (Hmax _ _ Hj'). lia.
        -- rewrite Forall_lookup in Hc. specialize (Hc _ _ Hj'). simpl in Hc. lia.
    + exists choice. split; [|done].
      destruct choice as [best_row|]; simpl in *.
      * destruct Hc as (i & Hi & Hpos & Hmax & Hfirst). exists i. split_and!.
        -- apply lookup_app_l_Some. done.
        -- done.
        -- intros j row' Hj. apply lookup_snoc_Some in Hj as [[Hj Hj']|[_ ->]]; [|done].
           by eapply Hmax.
        -- intros j row' Hj Hj'. apply lookup_lt_Some in Hi as Hil.
           rewrite lookup_app_l in Hj' by lia. by eapply Hfirst.
      * apply Forall_app. split; [done|]. constructor; [lia|constructor].
Qed.

(** The overlap counts the entry keywords that are extracted keywords,
    letter for letter. *)
Lemma size_inter_list (K : gset string) (l : list string) :
  NoDup l → size (K ∩ list_to_set l) = length (filter (λ kw, kw ∈ K) l).
Proof.
  induction 1 as [|x l Hx Hl IH]; simpl.
  - by rewrite intersection_empty_r_L, size_empty.
  - rewrite filter_cons.
    assert (K ∩ ({[x]} ∪ list_to_set l) = (K ∩ {[x]}) ∪ (K ∩ list_to_set l)) as ->
      by (apply set_eq; intros y; rewrite !elem_of_union, !elem_of_intersection,
            elem_of_union; tauto).
    rewrite size_union, IH.
    + destruct (decide (x ∈ K)) as [Hin|Hin].
      * assert (K ∩ {[x]} = {[x]}) as ->; [|by rewrite size_singleton].
        apply set_eq. intros y. rewrite elem_of_intersection, elem_of_singleton.
        split; [tauto|]. by intros ->.
      * assert (K ∩ {[x]} = ∅) as ->; [|by rewrite size_empty].
        apply set_eq. intros y.
        rewrite elem_of_intersection, elem_of_singleton, elem_of_empty.
        split; [|done]. by intros [? ->].
    + intros y. rewrite !elem_of_intersection, elem_of_singleton, elem_of_list_to_set.
      by intros [_ ->] [_ ?].
Qed.

Lemma text_similarity_count text row :
  text_similarity text row
  = length (filter (λ kw, occurs_ignoring_case kw text) (kb_keywords_list row)).
Proof.
  unfold text_similarity. apply sum_ones_count.
  intros kw. apply contains_lower_spec.
Qed.

(** C3.  For every knowledge base, keyword list, subject and body, each
    entry scores twice the number of strings that are both extracted
    keywords and entry keywords (a set intersection) plus the number of
    entry keywords that occur, ignoring case, in the text of the subject,
    a space and the body.  The matcher returns the solution and escalation
    texts of the first entry whose score is the largest, provided that
    score is positive (a later entry takes over only with a strictly
    greater score), and the generic solution and route-to-team note when
    every entry scores zero. *)
Theorem find_best_solution_first_best kb keywords (subject body : string) :
  let text := subject +:+ " " +:+ body in
  let score := total_score keywords text in
  Forall (λ row,
      score row
      = 2 * size (list_to_set keywords ∩ list_to_set (kb_keywords_list row) : gset string)
        + length (filter (λ kw, occurs_ignoring_case kw text) (kb_keywords_list row)))
    kb
  ∧ ∃ choice, first_best score kb choice ∧
      find_best_solution kb keywords subject body =
        match choice with
        | Some row => (solution row, escalation_info row)
        | None =>
            ("I'll look into your inquiry and get back to you with a detailed response shortly.",
             "General inquiry - route to appropriate team based on content")
        end.
Proof.
  intros text score. split.
  - apply Forall_forall. intros row _. unfold score, total_score, overlap.
    rewrite text_similarity_count. lia.
  - destruct (consider_first_best keywords text kb) as (choice & Hc & Hf).
    exists choice. split; [done|].
    unfold find_best_solution. fold text. rewrite Hf. by destruct choice.
Qed.

(** What one entry keyword adds to the entry's score: 2 when it is,
    letter for letter, among the extracted keywords, and 1 when it occurs
    in the text in any letter case. *)
Definition contribution (keywords : list string) (text kw : string) : nat :=
  (if decide (kw ∈ keywords) then 2 else 0)
  + (if decide (occurs_ignoring_case kw text) then 1 else 0).

Lemma overlap_count keywords row :
  NoDup (kb_keywords_list row) →
  overlap keywords row = length (filter (λ kw, kw ∈ keywords) (kb_keywords_list row)).
Proof.
  intros Hnd. unfold overlap. rewrite size_inter_list by done.
  f_equal. apply list_filter_iff. intros kw. apply elem_of_list_to_set.
Qed.

Lemma total_score_contributions keywords text row :
  NoDup (kb_keywords_list row) →
  total_score keywords text row
  = sum_list (contribution keywords text <$> kb_keywords_list row).
Proof.
  intros Hnd. unfold total_score.
  rewrite overlap_count, text_similarity_count by done. clear Hnd.
  induction (kb_keywords_list row) as [|x l IH]; [done|].
  rewrite !filter_cons, fmap_cons. simpl. rewrite <-IH. unfold contribution.
  destruct (decide (x ∈ keywords)), (decide (occurs_ignoring_case x text)); simpl; lia.
Qed.

Lemma overlap_cons_miss keywords row v :
  v ∉ kb_keywords_list row → overlap (v :: keywords) row = overlap keywords row.
Proof.
  intros Hv. unfold overlap. f_equal. apply set_eq. intros y.
  rewrite !elem_of_intersection, !elem_of_list_to_set, elem_of_cons.
  split; [|tauto]. intros [[->|?] ?]; done.
Qed.

Lemma overlap_cons_hit keywords row e :
  e ∈ kb_keywords_list row → e ∉ keywords →
  overlap (e :: keywords) row = overlap keywords row + 1.
Proof.
  intros He Hk. unfold overlap.
  assert (list_to_set (e :: keywords) ∩ list_to_set (kb_keywords_list row)
          = ({[e]} : gset string)
            ∪ (list_to_set keywords ∩ list_to_set (kb_keywords_list row))) as ->.
  { apply set_eq. intros y.
    rewrite elem_of_union, !elem_of_intersection, !elem_of_list_to_set,
      elem_of_cons, elem_of_singleton.
    split; [tauto|]. intros [->|[? ?]]; tauto. }
  rewrite size_union, size_singleton; [lia|].
  intros y. rewrite elem_of_singleton, elem_of_intersection, elem_of_list_to_set.
  by intros -> [? _].
Qed.

Lemma occurs_variant v e text :
  lower v = lower e → occurs_in v text → occurs_ignoring_case e text.
Proof. intros Hv (pre & post & ->). by exists pre, v, post. Qed.

(** C10.  The overlap term compares letter for letter and the text-hit
    term ignores case.  Take an entry (its keywords pairwise distinct),
    one of its keywords [e], and a spelling [v] that equals [e] up to
    letter case but is no entry keyword, occurring in the text.  Then
    extracting [v] leaves the overlap as it is, while [e] is still counted
    once as a text hit: [e] adds 1 to the score.  Extracting [e] itself
    adds 2 more: [e] adds 3, and the entry's score is larger by 2. *)
Theorem overlap_exact_text_hit_any_case row keywords (text e v : string) :
  NoDup (kb_keywords_list row) →
  e ∈ kb_keywords_list row →
  lower v = lower e →
  v ∉ kb_keywords_list row →
  e ∉ keywords →
  occurs_in v text →
  (∀ kws, total_score kws text row
          = sum_list (contribution kws text <$> kb_keywords_list row))
  ∧ overlap (v :: keywords) row = overlap keywords row
  ∧ overlap (e :: keywords) row = overlap keywords row + 1
  ∧ contribution (v :: keywords) text e = 1
  ∧ contribution (e :: keywords) text e = 3
  ∧ total_score (e :: keywords) text row = total_score (v :: keywords) text row + 2.
Proof.
  intros Hnd He Hv Hvn Hek Ho.
  pose proof (occurs_variant _ _ _ Hv Ho) as Hoe.
  assert (e ≠ v) as Hne by (by intros ->).
  split_and!.
  - intros kws. by apply total_score_contributions.
  - by apply overlap_cons_miss.
  - by apply overlap_cons_hit.
  - unfold contribution.
    destruct (decide (e ∈ v :: keywords)) as [Hin|_].
    { apply elem_of_cons in Hin as [?|?]; done. }
    by destruct (decide (occurs_ignoring_case e text)).
  - unfold contribution.
    destruct (decide (e ∈ e :: keywords)) as [_|Hin]; [|by destruct Hin; left].
    by destruct (decide (occurs_ignoring_case e text)).
  - unfold total_score.
    rewrite (overlap_cons_miss keywords row v), (overlap_cons_hit keywords row e) by done.
    lia.
Qed.

End matching.

(** ** Response synthesis and regeneration *)
Section synthesis.
Import EmailAssistant.

(** The keys that have a template of their own. *)
Definition template_keys : list string :=
  [ "urgent_negative"; "normal_positive"; "normal_neutral"; "urgent_neutral" ].

Lemma dom_response_templates : dom response_templates = list_to_set template_keys.
Proof. reflexivity. Qed.

Lemma template_key_eq (priority sentiment : string) :
  template_key priority sentiment =
    if decide (priority +:+ "_" +:+ sentiment ∈ template_keys)
    then priority +:+ "_" +:+ sentiment else "normal_neutral".
Proof.
  unfold template_key. rewrite dom_response_templates.
  destruct (decide _) as [H|H].
  - rewrite bool_decide_eq_true_2; [done|]. by apply elem_of_list_to_set.
  - rewrite bool_decide_eq_false_2; [done|]. by rewrite elem_of_list_to_set.
Qed.

Lemma template_key_listed (priority sentiment : string) :
  template_key priority sentiment ∈ template_keys.
Proof.
  rewrite template_key_eq. destruct (decide _); [done|].
  unfold template_keys. by repeat constructor.
Qed.

Lemma response_templates_lookup key :
  key ∈ template_keys → is_Some (response_templates !! key).
Proof.
  intros H. apply elem_of_dom. rewrite dom_response_templates.
  by apply elem_of_list_to_set.
Qed.

(** C6.  For every priority and sentiment the key the synthesis settles
    on has a template: it is the key priority_sentiment itself when
    that is one of urgent_negative, normal_positive, normal_neutral,
    urgent_neutral, each of which selects its own template, and it is
    normal_neutral for every other combination, urgent_positive and
    normal_negative among them. *)
Theorem template_key_resolves (priority sentiment : string) :
  let key := priority +:+ "_" +:+ sentiment in
  is_Some (response_templates !! template_key priority sentiment)
  ∧ template_key priority sentiment =
      (if decide (key ∈ template_keys) then key else "normal_neutral")
  ∧ response_templates !! template_key "urgent" "negative" = Some template_urgent_negative
  ∧ response_templates !! template_key "normal" "positive" = Some template_normal_positive
  ∧ response_templates !! template_key "normal" "neutral" = Some template_normal_neutral
  ∧ response_templates !! template_key "urgent" "neutral" = Some template_urgent_neutral
  ∧ response_templates !! template_key "urgent" "positive" = Some template_normal_neutral
  ∧ response_templates !! template_key "normal" "negative" = Some template_normal_neutral.
Proof.
  intros key. split_and!; try reflexivity.
  - apply response_templates_lookup, template_key_listed.
  - apply template_key_eq.
Qed.

(** *** Filling the templates *)

Definition fields_of (segs : list segment) : list string :=
  omap (λ seg, match seg with Field name => Some name | Text _ => None end) segs.

Definition response_fields : list string :=
  [ "sender_name"; "solution"; "ticket_id"; "additional_info" ].

Lemma fill_ok segs (kwargs : gmap string string) :
  Forall (λ name, is_Some (kwargs !! name)) (fields_of segs) →
  ∃ text, fill segs kwargs = Ok text.
Proof.
  induction segs as [|[c|name] segs IH]; intros Hf; simpl.
  - by eexists.
  - destruct (IH Hf) as [rest ->]. by eexists.
  - unfold fields_of in Hf. simpl in Hf. apply Forall_cons in Hf as [[v ->] Hf].
    destruct (IH Hf) as [rest ->]. by eexists.
Qed.

Lemma response_kwargs_lookup sender_name solution ticket_id additional_info name :
  name ∈ response_fields →
  is_Some (response_kwargs sender_name solution ticket_id additional_info !! name).
Proof.
  intros H. unfold response_fields in H.
  repeat (apply elem_of_cons in H as [->|H]; [by eexists|]).
  by apply elem_of_nil in H.
Qed.

(** Every template parses, and asks for no other field than the four
    that [format] is given. *)
Lemma template_well_formed key template :
  response_templates !! key = Some template →
  ∃ segs, parse_template None template = Some segs
          ∧ Forall (λ name, name ∈ response_fields) (fields_of segs).
Proof.
  intros H. apply elem_of_list_to_map_2 in H.
  assert (∀ t, forallb (λ name, bool_decide (name ∈ response_fields))
                 (fields_of (default [Field "?"] (parse_template None t))) = true →
               ∃ segs, parse_template None t = Some segs
                       ∧ Forall (λ name, name ∈ response_fields) (fields_of segs)) as Hok.
  { intros t Ht. destruct (parse_template None t) as [segs|]; [|done].
    exists segs. split; [done|]. apply Forall_forall. intros name Hn.
    rewrite forallb_forall in Ht. apply list_elem_of_In, Ht in Hn.
    by apply bool_decide_eq_true in Hn. }
  repeat (apply elem_of_cons in H as [[= -> ->]|H]; [apply Hok; vm_compute; reflexivity|]).
  by apply elem_of_nil in H.
Qed.

Lemma format_template_ok key template sender_name solution ticket_id additional_info :
  response_templates !! key = Some template →
  ∃ text, format template
            (response_kwargs sender_name solution ticket_id additional_info) = Ok text.
Proof.
  intros H. apply template_well_formed in H as (segs & Hp & Hf).
  unfold format. rewrite Hp. apply fill_ok.
  eapply Forall_impl; [done|]. intros name. apply response_kwargs_lookup.
Qed.

(** *** Records read back from the [emails] table *)

Lemma getitem_stored row :
  getitem (stored_fields row) "sender" = Ok (PStr (sender row))
  ∧ getitem (stored_fields row) "subject" = Ok (PStr (subject row))
  ∧ getitem (stored_fields row) "body" = Ok (PStr (body row))
  ∧ getitem (stored_fields row) "priority" = Ok (PStr (priority row))
  ∧ getitem (stored_fields row) "sentiment" = Ok (PStr (sentiment row))
  ∧ getitem (stored_fields row) "keywords" = Ok (PStr (keywords row)).
Proof. by split_and!. Qed.

(** What synthesis makes of a stored record, but for the ticket. *)
Definition stored_sender_name (row : email_row) : string :=
  title (replace "." " " (hd EmptyString (split "@" (sender row)))).

Definition stored_keywords (row : email_row) : list string :=
  if String.eqb (keywords row) EmptyString then [] else split ", " (keywords row).

Definition stored_solution (kb : list kb_row) (row : email_row) : string * string :=
  find_best_solution kb (stored_keywords row) (subject row) (body row).

Definition stored_additional_info (kb : list kb_row) (row : email_row) : string :=
  if contains "thank" (lower (body row))
  then "We truly appreciate your positive feedback!"
  else if String.eqb (priority row) "urgent"
  then "This case has been escalated. " +:+ (stored_solution kb row).2
  else EmptyString.

Definition stored_template (row : email_row) : string :=
  default EmptyString
    (response_templates !! template_key (priority row) (sentiment row)).

(** Synthesis on a stored record never takes the handler: it fills the
    selected template. *)
Lemma generate_stored kb stamp row :
  ∃ text,
    generate_ai_response kb stamp (stored_fields row) = Ok text
    ∧ format (stored_template row)
        (response_kwargs (stored_sender_name row) (stored_solution kb row).1
           ("SUP" +:+ stamp) (stored_additional_info kb row)) = Ok text.
Proof.
  destruct (getitem_stored row) as (Hs & Hsu & Hb & Hp & Hse & Hk).
  destruct (response_templates_lookup _
              (template_key_listed (priority row) (sentiment row))) as [template Ht].
  destruct (format_template_ok _ _ (stored_sender_name row) (stored_solution kb row).1
              ("SUP" +:+ stamp) (stored_additional_info kb row) Ht) as [text Hf].
  exists text. unfold stored_template. rewrite Ht. simpl. split; [|done].
  unfold generate_ai_response, sender_name_of. rewrite Hs. simpl.
  fold (stored_sender_name row).
  unfold synthesize. rewrite Hse, Hp, Hk, Hsu, Hb. simpl.
  assert ((if negb (String.eqb (keywords row) EmptyString)
           then Ok (split ", " (keywords row)) else Ok [])
          = Ok (stored_keywords row)) as ->.
  { unfold stored_keywords. by destruct (String.eqb _ _). }
  simpl. fold (stored_solution kb row).
  unfold getitem. rewrite Ht. simpl.
  fold (stored_additional_info kb row). by rewrite Hf.
Qed.

Lemma regenerate_response_found stamp i db row :
  emails db !! i = Some row →
  ∃ text,
    regenerate_response stamp (Some i) db
    = (Json200 text,
       {| emails := <[i := set_ai_response text row]> (emails db);
          knowledge_base := knowledge_base db |})
    ∧ format (stored_template row)
        (response_kwargs (stored_sender_name row)
           (stored_solution (knowledge_base db) row).1
           ("SUP" +:+ stamp) (stored_additional_info (knowledge_base db) row)) = Ok text.
Proof.
  intros Hrow.
  destruct (generate_stored (knowledge_base db) stamp row) as (text & Hg & Hf).
  exists text. split; [|done].
  unfold regenerate_response. simpl. rewrite Hrow. simpl. rewrite Hg.
  do 2 f_equal. apply map_eq. intros j. rewrite lookup_alter, lookup_insert.
  destruct (decide (i = j)) as [->|]; [by rewrite Hrow|done].
Qed.


(** *** The handler and an unbound [sender_name] *)

(** With a string for sender, synthesis returns a string whatever the
    rest of the record holds. *)
Lemma generate_ai_response_sender_str kb stamp (email_data : gmap string pyval) s :
  email_data !! "sender" = Some (PStr s) →
  ∃ text, generate_ai_response kb stamp email_data = Ok text.
Proof.
  intros Hs. unfold generate_ai_response, sender_name_of, getitem.
  rewrite Hs. simpl. destruct (synthesize _ _ _ _); by eexists.
Qed.

(** Without one, the first statement of the [try] block fails, and the
    handler fails in turn on the name it was to bind. *)
Lemma generate_ai_response_sender_other kb stamp (email_data : gmap string pyval) :
  (∀ s, email_data !! "sender" ≠ Some (PStr s)) →
  generate_ai_response kb stamp email_data = Raise (UnboundLocalError "sender_name").
Proof.
  intros Hs. unfold generate_ai_response, sender_name_of, getitem.
  destruct (email_data !! "sender") as [[s| |n]|]; try done.
  by destruct (Hs s).
Qed.

(** The record that [process_email] builds for the request
    [{sender: 5, subject: Hi, body: Hello}], less the fields synthesis
    does not read. *)
Definition record_with_numeric_sender : gmap string pyval :=
  list_to_map
    [ ("sender", PInt 5); ("subject", PStr "Hi"); ("body", PStr "Hello");
      ("priority", PStr "normal"); ("sentiment", PStr "neutral");
      ("keywords", PStr EmptyString) ].

(** C5.  On a record whose sender is the number 5, and on the same
    record without a sender, synthesis returns no string: it raises
    [UnboundLocalError] out of its own handler, whatever the knowledge
    base and the clock. *)
Theorem generate_ai_response_raises (kb : list kb_row) (stamp : string) :
  generate_ai_response kb stamp record_with_numeric_sender
    = Raise (UnboundLocalError "sender_name")
  ∧ generate_ai_response kb stamp (delete "sender" record_with_numeric_sender)
    = Raise (UnboundLocalError "sender_name").
Proof. split; by apply generate_ai_response_sender_other. Qed.

End synthesis.

(** ** Keyword extraction *)
Section keywords.
Import EmailAssistant.

(** De-duplication that keeps each string where it is first seen. *)
Fixpoint first_seen (seen xs : list string) : list string :=
  match xs with
  | [] => []
  | x :: xs' =>
      if decide (x ∈ seen) then first_seen seen xs'
      else x :: first_seen (x :: seen) xs'
  end.

Lemma elem_of_first_seen seen xs x :
  x ∈ first_seen seen xs ↔ x ∈ xs ∧ x ∉ seen.
Proof.
  revert seen. induction xs as [|y xs IH]; intros seen; simpl.
  - rewrite elem_of_nil. tauto.
  - destruct (decide (y ∈ seen)) as [Hy|Hy].
    + rewrite IH, elem_of_cons. split; [tauto|]. intros [[->|?] ?]; tauto.
    + rewrite !elem_of_cons, IH, not_elem_of_cons. split.
      * intros [->|[? [? ?]]]; tauto.
      * intros [[->|?] ?]; [tauto|]. destruct (decide (x = y)); tauto.
Qed.

Lemma NoDup_first_seen seen xs : NoDup (first_seen seen xs).
Proof.
  revert seen. induction xs as [|y xs IH]; intros seen; simpl; [constructor|].
  destruct (decide (y ∈ seen)); [done|]. constructor; [|done].
  rewrite elem_of_first_seen, not_elem_of_cons. tauto.
Qed.

Lemma first_seen_perm xs : first_seen [] xs ≡ₚ remove_dups xs.
Proof.
  apply NoDup_Permutation; [apply NoDup_first_seen|apply NoDup_remove_dups|].
  intros x. rewrite elem_of_first_seen, elem_of_remove_dups, elem_of_nil. tauto.
Qed.

(** An iteration order that a set may show: the one of [gset]. *)
#[local] Program Instance gset_order : SetOrder :=
  {| list_set xs := elements (list_to_set xs : gset string) |}.
Next Obligation.
  intros xs. apply NoDup_Permutation; [apply NoDup_elements|apply NoDup_remove_dups|].
  intros x. by rewrite elem_of_elements, elem_of_list_to_set, elem_of_remove_dups.
Qed.

Lemma elem_of_collected_keywords text k :
  k ∈ collected_keywords text ↔
  (∃ pattern, pattern ∈ tech_patterns ∧ k ∈ findall true pattern text)
  ∨ (k ∈ urgent_keywords ∧ occurs_in k (lower text)).
Proof.
  unfold collected_keywords. rewrite elem_of_app, list_elem_of_bind.
  rewrite list_elem_of_In, filter_In, <-list_elem_of_In, contains_spec.
  split; (intros [(p & ? & ?)|[? ?]]; [left; by exists p|by right]).
Qed.

(** What the extractor keeps of the claimed behaviour, whatever the
    order of the set: the matches of the domain patterns and the urgent
    keywords that occur in the lower-cased text are collected, no keyword
    is returned twice, as many are returned as there are distinct
    collected keywords up to 10, and each of them was collected. *)
Lemma extract_keywords_distinct_collected `{SetOrder} (text : string) :
  (∀ k, k ∈ collected_keywords text ↔
        (∃ pattern, pattern ∈ tech_patterns ∧ k ∈ findall true pattern text)
        ∨ (k ∈ urgent_keywords ∧ occurs_in k (lower text)))
  ∧ NoDup (extract_keywords text)
  ∧ length (extract_keywords text)
    = 10 `min` length (first_seen [] (collected_keywords text))
  ∧ extract_keywords text ⊆ collected_keywords text
  ∧ ∃ rest, extract_keywords text ++ rest ≡ₚ first_seen [] (collected_keywords text).
Proof.
  pose proof (list_set_perm (collected_keywords text)) as Hp.
  rewrite <-first_seen_perm in Hp.
  assert (extract_keywords text ++ drop 10 (list_set (collected_keywords text))
          ≡ₚ first_seen [] (collected_keywords text)) as Hall.
  { unfold extract_keywords. by rewrite take_drop. }
  split_and!.
  - apply elem_of_collected_keywords.
  - assert (NoDup (extract_keywords text ++ drop 10 (list_set (collected_keywords text))))
      as Hnd by (rewrite Hall; apply NoDup_first_seen).
    by apply NoDup_app in Hnd as [? _].
  - unfold extract_keywords. by rewrite length_take, Hp.
  - intros k Hk.
    assert (k ∈ first_seen [] (collected_keywords text)) as Hin
      by (rewrite <-Hall, elem_of_app; by left).
    by apply elem_of_first_seen in Hin as [? _].
  - by eexists.
Qed.

(** With a set iterated in another order than the one of insertion,
    the keywords do not come in first-seen order. *)
Lemma extract_keywords_not_first_seen :
  ¬ (∀ (order : SetOrder) (text : string),
       @extract_keywords order text = take 10 (first_seen [] (collected_keywords text))).
Proof.
  intros Hall. specialize (Hall gset_order "api billing error").
  vm_compute in Hall. discriminate.
Qed.

(** An email with twelve distinct keywords. *)
Definition crowded_subject : string := "refund of an invoice for my subscription".
Definition crowded_body : string :=
  "The billing page asks for login and password again. My account access fails at authentication, also through the api, the sdk and the webhook.".

(** C4.  The extractor builds its list in first-seen order and then
    passes it through a set, which loses that order: [list(set(keywords))]
    comes in the set's iteration order.  On the text [api billing error]
    the keywords are collected as api, billing, error; an iteration order
    that a set may show returns them as error, api, billing.  Past 10
    keywords the order also decides which keywords are kept: of the
    twelve keywords of the crowded email the first 10 seen hold login and
    password, the first 10 of the set do not, and the knowledge base then
    answers with the billing entry instead of the account entry. *)
Theorem extract_keywords_loses_first_seen_order :
  first_seen [] (collected_keywords "api billing error") = [ "api"; "billing"; "error" ]
  ∧ @extract_keywords gset_order "api billing error" = [ "error"; "api"; "billing" ]
  ∧ let text := crowded_subject +:+ " " +:+ crowded_body in
    let claimed := take 10 (first_seen [] (collected_keywords text)) in
    let returned := @extract_keywords gset_order text in
    length (first_seen [] (collected_keywords text)) = 12
    ∧ "login" ∈ claimed ∧ "password" ∈ claimed
    ∧ ("login" ∉ returned) ∧ ("password" ∉ returned)
    ∧ find_best_solution knowledge_entries claimed crowded_subject crowded_body
      = (solution account_access, escalation_info account_access)
    ∧ find_best_solution knowledge_entries returned crowded_subject crowded_body
      = (solution billing_payment, escalation_info billing_payment).
Proof.
  split; [by vm_compute|]. split; [by vm_compute|].
  cbv zeta. split_and!.
  - by vm_compute.
  - apply (bool_decide_unpack _). by vm_compute.
  - apply (bool_decide_unpack _). by vm_compute.
  - apply (bool_decide_unpack _). by vm_compute.
  - apply (bool_decide_unpack _). by vm_compute.
  - by vm_compute.
  - by vm_compute.
Qed.

End keywords.

(** ** Extraction and its sentinels *)
Section extraction.
Import EmailAssistant.
Implicit Types (r : regex) (cur : cursor) (s t w : string) (ic : bool).

(** [re.findall] finds nothing exactly when [re.search] does. *)
Lemma finditer_from_nil ic r prev s :
  finditer_from ic r 0 prev s = [] ↔ search_from ic r prev s = None.
Proof.
  revert prev. induction s as [|c s IH]; intros prev; simpl;
    destruct (run ic r _) as [|[c1 gs] l]; try done.
Qed.

Lemma findall_nil ic r text : findall ic r text = [] ↔ search ic r text = None.
Proof.
  unfold findall, finditer, search. rewrite <-finditer_from_nil.
  split; [apply fmap_nil_inv|by intros ->].
Qed.

Lemma findall_groups_nil ic r text :
  findall_groups ic r text = [] ↔ search ic r text = None.
Proof.
  unfold findall_groups, finditer, search. rewrite <-finditer_from_nil.
  split; [apply fmap_nil_inv|by intros ->].
Qed.

(** Every match that is found is a way the pattern matches somewhere. *)
Lemma finditer_from_elem ic r skip prev s (h : hit) :
  h ∈ finditer_from ic r skip prev s →
  ∃ cur res, res ∈ run ic r cur ∧ h.2 = res.2.
Proof.
  revert skip prev. induction s as [|c s IH]; intros skip prev; simpl.
  - destruct skip; [|by intros ?%elem_of_nil].
    destruct (run ic r _) as [|[c1 gs] l] eqn:E; [by intros ?%elem_of_nil|].
    intros Hh%list_elem_of_singleton. subst h.
    exists (prev, EmptyString), (c1, gs). split; [|done]. rewrite E. by left.
  - destruct skip as [|k]; [|by apply IH].
    destruct (run ic r _) as [|[c1 gs] l] eqn:E; [by apply IH|].
    intros [->|Hh]%elem_of_cons; [|by eapply IH].
    exists (prev, String c s), (c1, gs). split; [|done]. rewrite E. by left.
Qed.

Lemma run_alts_elem ic rs cur res :
  res ∈ run ic (alts rs) cur ↔ ∃ r, r ∈ rs ∧ res ∈ run ic r cur.
Proof.
  induction rs as [|r rs IH].
  - simpl. split.
    + destruct cur.2; [by intros ?%elem_of_nil|].
      unfold cls_ok. simpl. rewrite andb_false_r. by intros ?%elem_of_nil.
    + by intros (r & ?%elem_of_nil & _).
  - destruct rs as [|r' rs].
    + simpl. split; [intros; exists r; split; [by left|done]|].
      by intros (r0 & ->%list_elem_of_singleton & ?).
    + change (alts (r :: r' :: rs)) with (Alt r (alts (r' :: rs))).
      simpl run. rewrite elem_of_app, IH. split.
      * intros [?|(r0 & ? & ?)]; [exists r; split; [by left|done]|].
        exists r0. split; [by right|done].
      * intros (r0 & [->|?]%elem_of_cons & ?); [by left|right; by exists r0].
Qed.

Lemma run_chr_elem ic c cur cur' g : (cur', g) ∈ run ic (Chr c) cur → g = [].
Proof.
  destruct cur as [prev [|d s]]; [by intros ?%elem_of_nil|].
  change (run ic (Chr c) (prev, String d s))
    with (if chr_ok ic c d then [((Some d, s), @nil string)] else []).
  destruct (chr_ok ic c d); [|by intros ?%elem_of_nil].
  by intros [= _ ->]%list_elem_of_singleton.
Qed.

Lemma substring_prefix w s : String.substring 0 (String.length w) (w +:+ s) = w.
Proof.
  induction w as [|c w IH].
  - by destruct s.
  - rewrite app_cons. simpl. by rewrite IH.
Qed.

Lemma consumed_app w s : consumed (w +:+ s) s = w.
Proof.
  unfold consumed. rewrite app_length.
  replace (String.length w + String.length s - String.length s)
    with (String.length w) by lia.
  apply substring_prefix.
Qed.

(** A match of a trigger pattern has two groups, the first of which is
    one of the triggers up to letter case. *)
Lemma run_trigger_clause_elem triggers cur res :
  res ∈ run true (trigger_clause triggers) cur →
  ∃ t w clause, t ∈ triggers ∧ lower t = lower w ∧ res.2 = [w; clause].
Proof.
  destruct cur as [prev s].
  change (trigger_clause triggers)
    with (Seq (Grp (alts (lit <$> triggers)))
            (Seq (Chr " ") (Grp (Rep (λ c, negb (one_of ".!?" c)) 0 None)))).
  intros (c1 & g1 & g2 & H1 & H2 & Hg)%run_seq_elem.
  apply run_grp_elem in H1 as (g & H1 & Hg1). simpl in H1, Hg1.
  apply run_alts_elem in H1 as (r & (t & -> & Ht)%list_elem_of_fmap & H1).
  apply run_lit_elem in H1 as (w & s' & -> & Ha & [= -> ->]).
  simpl in Hg1. rewrite consumed_app in Hg1.
  apply run_seq_elem in H2 as (c2 & g3 & g4 & H2 & H3 & Hg2).
  cbn [fst snd] in H3, Hg2.
  apply run_chr_elem in H2 as ->.
  apply run_grp_elem in H3 as (g5 & H3 & Hg4). cbn [fst snd] in H3, Hg4.
  change (run true (Rep ?p ?lo ?hi) c2)
    with ((λ c : cursor, (c, @nil string)) <$> rep (cls_ok true p) lo hi c2.1 c2.2) in H3.
  apply list_elem_of_fmap in H3 as (c3 & [= _ ->] & _).
  exists t, w, (consumed c2.2 res.1.2). split; [done|]. split; [done|].
  rewrite Hg, Hg1, Hg2. simpl. by rewrite Hg4.
Qed.

(** *** First characters *)

Lemma first_char_join sep x l :
  x ≠ EmptyString → first_char (join sep (x :: l)) = first_char x.
Proof.
  intros Hx. unfold join. destruct l as [|y l]; [done|].
  change (String.concat sep (x :: y :: l))
    with (x +:+ sep +:+ String.concat sep (y :: l)).
  by apply first_char_app.
Qed.

Lemma first_char_strip c s : isspace c = false → first_char (strip (String c s)) = Some c.
Proof.
  intros Hc. unfold strip. simpl. rewrite Hc. simpl.
  destruct (rstrip s); [by rewrite Hc|done].
Qed.

(** The letters the trigger phrases begin with, in either case. *)
Definition trigger_start (c : ascii) : bool := one_of "nwrlhcpi" (char_lower c).

Definition starts_like_trigger (s : string) : Prop :=
  ∃ c s', s = String c s' ∧ trigger_start c = true.

Lemma trigger_start_not_space c : trigger_start c = true → isspace c = false.
Proof. by destruct c as [[] [] [] [] [] [] [] []]. Qed.

Lemma trigger_start_lower c d :
  char_lower c = char_lower d → trigger_start c = trigger_start d.
Proof. unfold trigger_start. by intros ->. Qed.

Definition requirement_triggers : list (list string) :=
  [ ["need"; "want"; "require"; "request"; "looking for"; "help with"];
    ["can you"; "could you"; "please"];
    ["i would like"; "i want"; "i need"] ].

Lemma requirement_patterns_triggers :
  requirement_patterns = trigger_clause <$> requirement_triggers.
Proof. reflexivity. Qed.

Lemma requirement_triggers_start :
  Forall (Forall starts_like_trigger) requirement_triggers.
Proof. repeat constructor; by eexists _, _. Qed.

Lemma pattern_requirements_start triggers text x :
  Forall starts_like_trigger triggers →
  x ∈ pattern_requirements (trigger_clause triggers) text →
  starts_like_trigger x.
Proof.
  intros Ht. unfold pattern_requirements.
  rewrite list_elem_of_In, filter_In, <-list_elem_of_In.
  intros [(m & -> & Hm)%list_elem_of_fmap _].
  apply (subseteq_take 3) in Hm. unfold findall_groups in Hm.
  apply list_elem_of_fmap in Hm as (h & -> & Hh).
  apply finditer_from_elem in Hh as (cur & res & Hr & ->).
  apply run_trigger_clause_elem in Hr as (t & w & clause & Hin & Hl & ->).
  rewrite Forall_forall in Ht. destruct (Ht _ Hin) as (a & t' & -> & Ha).
  destruct w as [|c w']; [done|]. simpl in Hl. injection Hl as Hc _.
  change (join " " [String c w'; clause]) with (String c (w' +:+ " " +:+ clause)).
  rewrite (trigger_start_lower a c Hc) in Ha.
  pose proof (first_char_strip c (w' +:+ " " +:+ clause) (trigger_start_not_space _ Ha)) as Hf.
  destruct (strip _) as [|c' rest]; [done|]. simpl in Hf. injection Hf as ->.
  by exists c, rest.
Qed.

Lemma kept_requirements_start text :
  Forall starts_like_trigger (kept_requirements text).
Proof.
  apply Forall_forall. intros x. unfold kept_requirements.
  rewrite list_elem_of_bind, requirement_patterns_triggers.
  intros (p & Hx & (triggers & -> & Ht)%list_elem_of_fmap).
  eapply pattern_requirements_start; [|done].
  by apply (proj1 (Forall_forall _ _) requirement_triggers_start).
Qed.

Lemma pattern_requirements_length pattern text :
  length (pattern_requirements pattern text) ≤ 3.
Proof.
  unfold pattern_requirements.
  etrans; [apply List.filter_length_le|]. rewrite length_fmap, length_take. lia.
Qed.

Lemma contact_items_nil text :
  contact_items text = [] ↔
  search false phone_pattern text = None ∧ search false email_pattern text = None
  ∧ search true social_pattern text = None.
Proof.
  rewrite <-!findall_nil. unfold contact_items.
  destruct (findall false phone_pattern text), (findall false email_pattern text),
    (findall true social_pattern text); simpl; split; try done; by intros (? & ? & ?).
Qed.

Lemma contact_items_start text x l :
  contact_items text = x :: l → first_char x ∈ [Some "P"; Some "A"; Some "S"]%char.
Proof.
  unfold contact_items.
  destruct (findall false phone_pattern text), (findall false email_pattern text),
    (findall true social_pattern text); simpl; intros [= <- _];
    change (first_char (String ?c ?s +:+ ?t)) with (Some c); by repeat constructor.
Qed.

(** C8.  Contact extraction answers with its sentinel exactly when none
    of the phone, email-address and social-handle patterns matches the
    text.  Requirement extraction keeps, of the first 3 matches of each
    pattern, the trimmed space-joined captures longer than 10 characters,
    joins what it kept with a semicolon and a space, and answers with its
    sentinel exactly when nothing was kept.  Both are total. *)
Theorem extraction_sentinels (text subject body : string) :
  (extract_contact_info text = "No additional contact info found" ↔
     search false phone_pattern text = None
     ∧ search false email_pattern text = None
     ∧ search true social_pattern text = None)
  ∧ (let both := subject +:+ " " +:+ body in
     let kept := kept_requirements both in
     kept = requirement_patterns ≫= (λ pattern,
              filter (λ requirement, 10 < String.length requirement)
                ((λ m, strip (join " " m)) <$> take 3 (findall_groups true pattern both)))
     ∧ Forall (λ pattern, length (pattern_requirements pattern both) ≤ 3)
         requirement_patterns
     ∧ extract_requirements subject body =
         (if decide (kept = []) then "General support inquiry" else join "; " kept)
     ∧ (extract_requirements subject body = "General support inquiry" ↔ kept = [])).
Proof.
  split.
  - rewrite <-contact_items_nil. unfold extract_contact_info.
    destruct (contact_items text) as [|x l] eqn:E; [done|].
    split; [|done]. intros Hj. apply contact_items_start in E.
    assert (x ≠ EmptyString) as Hx.
    { intros ->. simpl in E. by repeat (apply elem_of_cons in E as [?|E]; [done|]);
        apply elem_of_nil in E. }
    pose proof (first_char_join "; " x l Hx) as Hf. rewrite Hj in Hf. simpl in Hf.
    rewrite <-Hf in E.
    by repeat (apply elem_of_cons in E as [?|E]; [done|]); apply elem_of_nil in E.
  - intros both kept. split_and!.
    + unfold kept, kept_requirements. apply list_bind_ext; [|done].
      intros pattern. unfold pattern_requirements.
      induction (_ <$> take 3 _) as [|x l IH]; [done|].
      simpl. rewrite filter_cons, IH.
      destruct (Nat.ltb_spec 10 (String.length x)), (decide _); try done; lia.
    + apply Forall_forall. intros pattern _. apply pattern_requirements_length.
    + unfold extract_requirements. fold both kept. by destruct kept.
    + unfold extract_requirements. fold both kept.
      pose proof (kept_requirements_start both) as Hs. fold kept in Hs.
      destruct kept as [|x l]; [done|]. split; [|done]. intros Hj.
      apply Forall_cons in Hs as [(c & x' & -> & Hc) _].
      pose proof (first_char_join "; " (String c x') l) as Hf.
      rewrite Hj in Hf. simpl in Hf. specialize (Hf ltac:(done)).
      injection Hf as <-. done.
Qed.

End extraction.

(** ** The assistant's patterns and concrete records *)
Section instances.
Import EmailAssistant.

(** No pattern of the assistant matches the empty text. *)
Lemma patterns_not_nullable :
  Forall (λ pattern, nullable pattern = false)
    (time_patterns ++ tech_patterns
     ++ [phone_pattern; email_pattern; social_pattern] ++ requirement_patterns).
Proof. repeat constructor. Qed.

Lemma doubly_listed_word_is_urgent_witness :
  "urgent" ∈ doubly_listed
  ∧ occurs_as_word "urgent" (lower ("Server status" +:+ " " +:+ "this is urgent"))
  ∧ determine_priority "Server status" "this is urgent" = "urgent".
Proof.
  assert ("urgent" ∈ doubly_listed) as Hw by (by repeat constructor).
  assert (occurs_as_word "urgent"
            (lower ("Server status" +:+ " " +:+ "this is urgent"))) as Ho.
  { exists "server status this is ", EmptyString. by split_and!. }
  split_and!; [done|done|].
  apply (doubly_listed_word_is_urgent "urgent" "Server status" "this is urgent" Hw Ho).
Defined.

Lemma overlap_exact_text_hit_any_case_witness :
  total_score ["Login"] "Login problem" account_access = 1
  ∧ total_score ["login"] "Login problem" account_access = 3.
Proof.
  assert (NoDup (kb_keywords_list account_access)) as Hnd.
  { apply (bool_decide_unpack _). vm_compute. exact I. }
  assert ("login" ∈ kb_keywords_list account_access) as He.
  { apply (bool_decide_unpack _). vm_compute. exact I. }
  assert ("Login" ∉ kb_keywords_list account_access) as Hv.
  { apply (bool_decide_unpack _). vm_compute. exact I. }
  assert (occurs_in "Login" "Login problem") as Ho.
  { by exists EmptyString, " problem". }
  destruct (overlap_exact_text_hit_any_case account_access [] "Login problem"
              "login" "Login" Hnd He eq_refl Hv (not_elem_of_nil _) Ho)
    as (_ & _ & _ & _ & _ & Hscore).
  split; [|rewrite Hscore]; vm_compute; reflexivity.
Defined.

(** A database with one stored email. *)
Definition stored_email : email_row :=
  {| sender := "jane.roe@example.com";
     subject := "Password reset";
     body := "I cannot access my account, this is critical";
     priority := "urgent";
     sentiment := "neutral";
     keywords := "account, access, critical";
     contact_info := "No additional contact info found";
     requirements := "General support inquiry";
     ai_response := EmptyString;
     status := "pending" |}.

Definition one_email : database :=
  {| emails := {[ 1%Z := stored_email ]};
     knowledge_base := knowledge_entries |}.


(** *** The pipeline on sample emails *)

Example outage_email_is_urgent :
  determine_priority "URGENT: system down"
    "Our production system is broken, cannot access and it's critical, please help ASAP"
  = "urgent".
Proof. vm_compute. reflexivity. Qed.

Example outage_email_is_negative :
  rule_based_sentiment
    "Our production system is broken, cannot access and it's critical, please help ASAP"
  = ("negative", 0.7%Q).
Proof. vm_compute. reflexivity. Qed.

Example thanks_email_is_positive_and_normal :
  rule_based_sentiment "Thank you, great service, I love it" = ("positive", 0.7%Q)
  ∧ determine_priority "Thank you" "Thank you, great service, I love it" = "normal".
Proof. split; vm_compute; reflexivity. Qed.

Example billing_email_matches_billing_entry :
  find_best_solution knowledge_entries ["invoice"; "refund"]
    "Question" "Where is my invoice and my refund"
  = (solution billing_payment, escalation_info billing_payment)
  ∧ determine_priority "Question" "Where is my invoice and my refund" = "normal".
Proof. split; vm_compute; reflexivity. Qed.

(** A keyword inside a longer word is one keyword hit and no pattern hit. *)
Example embedded_keyword_is_one_hit :
  keyword_hits (lower ("Report" +:+ " " +:+ "we urgently wait")) = 1
  ∧ pattern_hits (lower ("Report" +:+ " " +:+ "we urgently wait")) = 0
  ∧ determine_priority "Report" "we urgently wait" = "normal".
Proof. split_and!; vm_compute; reflexivity. Qed.

(** Extraction on a sample text. *)
Example contact_info_sample :
  extract_contact_info "call +1 (555) 123-4567 or write to john.doe@example.com"
  = "Phone: +1 (555) 123-4567; Alt Email: john.doe@example.com; Social: @example".
Proof. vm_compute. reflexivity. Qed.

Example requirements_sample :
  extract_requirements "Help" "I need a new laptop for work. Thanks!"
  = "need a new laptop for work; I need a new laptop for work".
Proof. vm_compute. reflexivity. Qed.

(** Keywords keep the letter case of the text, and so miss the overlap. *)
Example keywords_keep_case :
  collected_keywords "Login failed" = ["Login"; "failed"]
  ∧ total_score ["Login"; "failed"] "Login failed" account_access = 1
  ∧ total_score ["login"; "failed"] "Login failed" account_access = 3.
Proof. split_and!; vm_compute; reflexivity. Qed.

End instances.

(** * The rest of the pipeline: classification, orchestration, routes *)

(** ** Texts within the model *)

Fixpoint all_chars (p : ascii → bool) (s : string) : bool :=
  match s with
  | EmptyString => true
  | String c s' => p c && all_chars p s'
  end.

(** A text of ASCII characters only.  On these the string methods and
    the patterns above are Python's; on other texts Python maps case by
    the Unicode tables (so [title] can change the length of a string, and
    a pattern letter matches further characters when case is ignored). *)
Definition ascii_text (s : string) : bool := all_chars (λ c, (code c <? 128)%N) s.

(** ** Sentiment analysis with a model backend *)
Module Pipeline.
Import EmailAssistant.

(** What the sentiment pipeline returns for one text: a list, per input,
    of label and score entries.  The backend is absent when the models
    failed to load. *)
Definition scores : Type := list (string * Q).
Definition backend : Type := option (pyval → result (list scores)).

Definition label_mapping : gmap string string :=
  list_to_map
    [ ("LABEL_0", "negative"); ("LABEL_1", "neutral"); ("LABEL_2", "positive");
      ("negative", "negative"); ("neutral", "neutral"); ("positive", "positive") ].

(** [max(entries, key=lambda x: x['score'])]: an entry replaces the
    running maximum only when its score is greater. *)
Definition max_by_score (first : string * Q) (others : scores) : string * Q :=
  foldl (λ best x, if Qle_bool x.2 best.2 then best else x) first others.

(** The [try] block when a backend is there; [None] stands for any
    exception: the backend's own, [results[0]] on an empty list, [max] of
    an empty list. *)
Definition model_sentiment (sentiment_analyzer : pyval → result (list scores))
    (text : pyval) : option (string * Q) :=
  match sentiment_analyzer text with
  | Ok ((first :: others) :: _) =>
      let best_result := max_by_score first others in
      Some (default "neutral" (label_mapping !! best_result.1), best_result.2)
  | Ok ([] :: _) => None
  | Ok [] => None
  | Raise _ => None
  end.

(** [self.rule_based_sentiment(text)] on whatever [text] is: [text.lower()]
    is an [AttributeError] on a value that is no string. *)
Definition rule_based_sentiment_dyn (text : pyval) : result (string * Q) :=
  s ←! as_str text; Ok (rule_based_sentiment s).

Definition analyze_sentiment (sentiment_analyzer : backend) (text : pyval)
    : result (string * Q) :=
  match sentiment_analyzer with
  | Some run_model =>
      match model_sentiment run_model text with
      | Some found => Ok found
      | None => rule_based_sentiment_dyn text
      end
  | None => rule_based_sentiment_dyn text
  end.

(** The id [INSERT] gives a new row of [emails]: one more than the
    largest in use (the code deletes no row), 1 in an empty table. *)
Definition next_id (rows : gmap Z email_row) : Z :=
  1 + foldr Z.max 0%Z (elements (dom rows)).

(** The largest id of an [INTEGER PRIMARY KEY AUTOINCREMENT] column.
    Once it is in use no id is left and [INSERT] fails. *)
Definition max_rowid : Z := 2 ^ 63 - 1.
Definition has_room (db : database) : Prop := (next_id (emails db) ≤ max_rowid)%Z.

(** [process_email].  [now_iso] is [datetime.now().isoformat()] and
    [stamp] the clock reading of the synthesis.  The result is the
    returned [email_data] and the database after the [INSERT]; an
    exception leaves the database as it was.  The [INSERT] is modelled
    where it succeeds: the texts are ASCII and the table [has_room]. *)
Definition process_email `{SetOrder} (sentiment_analyzer : backend)
    (now_iso stamp : string) (db : database) (sender subject body : pyval)
    : result (gmap string pyval * database) :=
  found ←! analyze_sentiment sentiment_analyzer body;
  let sentiment := found.1 in
  texts ←! (match subject, body with
            | PStr s, PStr b => Ok (s, b)
            | _, _ => Raise TypeError
            end);
  let priority := determine_priority texts.1 texts.2 in
  let keywords := extract_keywords (texts.1 +:+ " " +:+ texts.2) in
  let contact_info := extract_contact_info texts.2 in
  let requirements := extract_requirements texts.1 texts.2 in
  let email_data : gmap string pyval :=
    list_to_map
      [ ("sender", sender); ("subject", subject); ("body", body);
        ("priority", PStr priority); ("sentiment", PStr sentiment);
        ("keywords", PStr (join ", " keywords));
        ("contact_info", PStr contact_info);
        ("requirements", PStr requirements);
        ("date_received", PStr now_iso) ] in
  ai_response ←! generate_ai_response (knowledge_base db) stamp email_data;
  match sender with
  | PStr sender_s =>
      let row :=
        {| sender := sender_s; subject := texts.1; body := texts.2;
           priority := priority; sentiment := sentiment;
           keywords := join ", " keywords; contact_info := contact_info;
           requirements := requirements; ai_response := ai_response;
           status := "pending" |} in
      let id := next_id (emails db) in
      Ok (<["id" := PInt id]> (<["ai_response" := PStr ai_response]> email_data),
          {| emails := <[id := row]> (emails db);
             knowledge_base := knowledge_base db |})
  | _ => Raise (UnboundLocalError "sender_name")
      (* not reached: synthesis has raised this already *)
  end.

End Pipeline.

(** ** The [/api/process_email] and [/api/send_response] routes *)
Module Routes.
Import EmailAssistant.

Inductive process_reply : Type :=
| Processed200 (email_data : gmap string pyval)
| MissingFields400
| ProcessError500 (e : exn).

(** [data] is the JSON object of the request. *)
Definition process_email `{SetOrder} (sentiment_analyzer : Pipeline.backend)
    (now_iso stamp : string) (data : gmap string pyval) (db : database)
    : process_reply * database :=
  let sender := default (PStr EmptyString) (data !! "sender") in
  let subject := default (PStr EmptyString) (data !! "subject") in
  let body := default (PStr EmptyString) (data !! "body") in
  if negb (truthy sender && truthy subject && truthy body)
  then (MissingFields400, db)
  else
    match Pipeline.process_email sentiment_analyzer now_iso stamp db sender subject body with
    | Ok (result, db') => (Processed200 result, db')
    | Raise e => (ProcessError500 e, db)
    end.

Inductive send_reply : Type :=
| MarkedResolved200.

Definition set_status (new_status : string) (row : email_row) : email_row :=
  {| sender := sender row; subject := subject row; body := body row;
     priority := priority row; sentiment := sentiment row;
     keywords := keywords row; contact_info := contact_info row;
     requirements := requirements row; ai_response := ai_response row;
     status := new_status |}.

(** [UPDATE emails SET status = 'resolved' WHERE id = ?], and the same
    reply whether or not a row had that id. *)
Definition send_response (email_id : option Z) (db : database)
    : send_reply * database :=
  (MarkedResolved200,
   {| emails := match email_id with
                | Some i => alter (set_status "resolved") i (emails db)
                | None => emails db
                end;
      knowledge_base := knowledge_base db |}).

End Routes.

(** ** The three writing routes, from the request on *)
Module Requests.

(** [request.json]: the JSON object of the body, or anything else.  On an
    array, a string, a number, a Boolean or null [data.get] is an
    [AttributeError], and on a body that is no JSON [request.json] raises
    itself; the handler's [except] branch catches both.  The members of
    the object are strings, null or integers, as [pyval] has them. *)
Inductive request_json : Type :=
| JsonObject (data : gmap string pyval)
| NoJsonObject.

(** What fails in a handler before the assistant or the table is
    reached: no object to read from, or an [OverflowError] when sqlite3
    binds an integer that does not fit 64 bits. *)
Inductive server_error : Type :=
| NoObject
| IdOverflow.

(** The handler's own reply, or status 500 from its [except] branch. *)
Inductive reply (A : Type) : Type :=
| Replied (r : A)
| Failed500 (e : server_error).
Arguments Replied {A} r.
Arguments Failed500 {A} e.

Definition int64 (i : Z) : bool := (- 2 ^ 63 <=? i)%Z && (i <? 2 ^ 63)%Z.

Section binding.

(** [WHERE id = ?] compares the bound value with an integer column.  A
    bound text is read as a number where it spells one (the texts [3],
    [03] and [3.0] all select the row of id 3) and selects no row
    otherwise.  [id_of_text] is this reading, sqlite3's own; the routes
    are modelled for whatever it is. *)
Variable id_of_text : string → option Z.

(** [data.get('email_id')] and the id it selects once bound: none for
    null or a missing key. *)
Definition email_id_of (body : request_json) : server_error + option Z :=
  match body with
  | NoJsonObject => inl NoObject
  | JsonObject data =>
      match default PNone (data !! "email_id") with
      | PNone => inr None
      | PInt i => if int64 i then inr (Some i) else inl IdOverflow
      | PStr s => inr (id_of_text s)
      end
  end.

Definition send_response (body : request_json) (db : database)
    : reply Routes.send_reply * database :=
  match email_id_of body with
  | inl e => (Failed500 e, db)
  | inr email_id =>
      let out := Routes.send_response email_id db in (Replied out.1, out.2)
  end.

Definition regenerate_response (stamp : string) (body : request_json)
    (db : database) : reply http_reply * database :=
  match email_id_of body with
  | inl e => (Failed500 e, db)
  | inr email_id =>
      let out := regenerate_response stamp email_id db in (Replied out.1, out.2)
  end.

End binding.

Definition process_email `{SetOrder} (sentiment_analyzer : Pipeline.backend)
    (now_iso stamp : string) (body : request_json) (db : database)
    : reply Routes.process_reply * database :=
  match body with
  | NoJsonObject => (Failed500 NoObject, db)
  | JsonObject data =>
      let out := Routes.process_email sentiment_analyzer now_iso stamp data db in
      (Replied out.1, out.2)
  end.

End Requests.

(** * Further properties *)

(** ** Sentiment analysis *)
Section classification.
Import EmailAssistant Pipeline.

Definition sentiment_labels : list string := [ "positive"; "neutral"; "negative" ].

Lemma rule_based_sentiment_label text :
  (rule_based_sentiment text).1 ∈ sentiment_labels.
Proof.
  unfold rule_based_sentiment, sentiment_labels.
  repeat destruct (_ <? _); simpl; by repeat constructor.
Qed.

Lemma label_mapping_label label :
  default "neutral" (label_mapping !! label) ∈ sentiment_labels.
Proof.
  destruct (label_mapping !! label) as [mapped|] eqn:E; simpl;
    [|unfold sentiment_labels; by repeat constructor].
  apply elem_of_list_to_map_2 in E. unfold sentiment_labels.
  repeat (apply elem_of_cons in E as [[= _ ->]|E]; [by repeat constructor|]).
  by apply elem_of_nil in E.
Qed.

(** X1.  Sentiment analysis answers every string, whatever the model
    backend does (absent, failing, or returning nothing), and its label
    is always positive, neutral or negative; a label the mapping does
    not know counts as neutral.  On a value that is no string it answers
    with such a label too when the backend does, and otherwise fails
    with the [AttributeError] of the fallback. *)
Theorem analyze_sentiment_label (sentiment_analyzer : backend) (text : pyval) :
  match analyze_sentiment sentiment_analyzer text with
  | Ok found => found.1 ∈ sentiment_labels
  | Raise e => e = AttributeError ∧ ∀ s, text ≠ PStr s
  end.
Proof.
  assert (match rule_based_sentiment_dyn text with
          | Ok found => found.1 ∈ sentiment_labels
          | Raise e => e = AttributeError ∧ ∀ s, text ≠ PStr s
          end) as Hrule.
  { destruct text; simpl; [apply rule_based_sentiment_label|done..]. }
  unfold analyze_sentiment. destruct sentiment_analyzer as [run_model|]; [|done].
  unfold model_sentiment.
  destruct (run_model text) as [[|[|first others] results]|e]; try done.
  simpl. apply label_mapping_label.
Qed.

(** The entry [max] picks: the first of those with the largest score. *)
Lemma max_by_score_first_largest first others :
  let best := max_by_score first others in
  ∃ i, (first :: others) !! i = Some best
       ∧ Forall (λ x, (x.2 <= best.2)%Q) (first :: others)
       ∧ ∀ j x, j < i → (first :: others) !! j = Some x → (x.2 < best.2)%Q.
Proof.
  induction others as [|y others IH] using rev_ind; simpl.
  - exists 0. split_and!; [done| |intros; lia].
    repeat constructor. apply Qle_refl.
  - destruct IH as (i & Hi & Hmax & Hfirst). unfold max_by_score in *.
    rewrite foldl_snoc. set (best := foldl _ first others) in *.
    destruct (Qle_bool y.2 best.2) eqn:E.
    + apply Qle_bool_iff in E. exists i. split_and!.
      * rewrite app_comm_cons. by apply lookup_app_l_Some.
      * rewrite app_comm_cons. apply Forall_app. split; [done|]. by constructor.
      * intros j x Hj Hx. apply (Hfirst j x Hj).
        apply lookup_lt_Some in Hi.
        rewrite app_comm_cons, lookup_app_l in Hx by lia. done.
    + assert (best.2 < y.2)%Q as Hlt.
      { apply Qnot_le_lt. intros H. apply Qle_bool_iff in H. congruence. }
      exists (length (first :: others)). split_and!.
      * rewrite app_comm_cons, lookup_app_r, Nat.sub_diag by done. done.
      * rewrite app_comm_cons. apply Forall_app. split.
        -- eapply Forall_impl; [done|]. simpl. intros x Hx.
           eapply Qle_trans; [done|]. by apply Qlt_le_weak.
        -- repeat constructor. apply Qle_refl.
      * intros j x Hj Hx. rewrite app_comm_cons, lookup_app_l in Hx by done.
        rewrite Forall_lookup in Hmax. specialize (Hmax _ _ Hx). simpl in Hmax.
        by eapply Qle_lt_trans.
Qed.

(** X2.  When the backend answers with a non-empty list of entries for
    the text, the analysis reports the score of the first entry whose
    score is the largest, and the label that entry maps to. *)
Theorem analyze_sentiment_best (run_model : pyval → result (list scores))
    (text : pyval) (first : string * Q) (others : scores) (more : list scores) :
  run_model text = Ok ((first :: others) :: more) →
  ∃ i best,
    (first :: others) !! i = Some best
    ∧ analyze_sentiment (Some run_model) text
      = Ok (default "neutral" (label_mapping !! best.1), best.2)
    ∧ Forall (λ x, (x.2 <= best.2)%Q) (first :: others)
    ∧ ∀ j x, j < i → (first :: others) !! j = Some x → (x.2 < best.2)%Q.
Proof.
  intros Hrun.
  destruct (max_by_score_first_largest first others) as (i & Hi & Hmax & Hfirst).
  exists i, (max_by_score first others). split_and!; try done.
  unfold analyze_sentiment, model_sentiment. by rewrite Hrun.
Qed.

Definition sample_model : pyval → result (list scores) :=
  λ _, Ok [[("LABEL_0", 0.2%Q); ("LABEL_2", 0.5%Q); ("LABEL_1", 0.3%Q)]].

Lemma analyze_sentiment_best_witness :
  sample_model (PStr "fine")
  = Ok ([("LABEL_0", 0.2%Q); ("LABEL_2", 0.5%Q); ("LABEL_1", 0.3%Q)] :: [])
  ∧ ∃ i best,
      [("LABEL_0", 0.2%Q); ("LABEL_2", 0.5%Q); ("LABEL_1", 0.3%Q)] !! i = Some best
      ∧ analyze_sentiment (Some sample_model) (PStr "fine")
        = Ok (default "neutral" (label_mapping !! best.1), best.2)
      ∧ Forall (λ x, (x.2 <= best.2)%Q)
          [("LABEL_0", 0.2%Q); ("LABEL_2", 0.5%Q); ("LABEL_1", 0.3%Q)]
      ∧ ∀ j x, j < i →
          [("LABEL_0", 0.2%Q); ("LABEL_2", 0.5%Q); ("LABEL_1", 0.3%Q)] !! j = Some x →
          (x.2 < best.2)%Q.
Proof.
  split; [reflexivity|].
  apply (analyze_sentiment_best sample_model (PStr "fine") ("LABEL_0", 0.2%Q)
           [("LABEL_2", 0.5%Q); ("LABEL_1", 0.3%Q)] []).
  reflexivity.
Defined.

End classification.

(** ** Letter case, and a knowledge base loaded more than once *)
Section robustness.
Import EmailAssistant.

Lemma lower_texts s1 s2 b1 b2 :
  lower s1 = lower s2 → lower b1 = lower b2 →
  lower (s1 +:+ " " +:+ b1) = lower (s2 +:+ " " +:+ b2).
Proof. intros Hs Hb. by rewrite !lower_app, Hs, Hb. Qed.

Lemma foldl_consider_lower keywords text1 text2 kb st :
  lower text1 = lower text2 →
  foldl (consider keywords text1) st kb = foldl (consider keywords text2) st kb.
Proof.
  intros Ht. revert st. induction kb as [|row kb IH]; intros st; [done|].
  simpl. rewrite IH. f_equal.
  unfold consider, total_score, text_similarity. by rewrite Ht.
Qed.

(** X3.  Priority, fallback sentiment and knowledge-base match do not
    depend on the letter case of subject and body: two emails that are
    equal up to case get the same priority, the same fallback sentiment
    and, for the same keywords, the same solution. *)
Theorem analysis_ignores_case (subject1 subject2 body1 body2 : string) :
  lower subject1 = lower subject2 →
  lower body1 = lower body2 →
  determine_priority subject1 body1 = determine_priority subject2 body2
  ∧ rule_based_sentiment body1 = rule_based_sentiment body2
  ∧ ∀ kb keywords,
      find_best_solution kb keywords subject1 body1
      = find_best_solution kb keywords subject2 body2.
Proof.
  intros Hs Hb. pose proof (lower_texts _ _ _ _ Hs Hb) as Ht. split_and!.
  - unfold determine_priority. by rewrite Ht.
  - unfold rule_based_sentiment. by rewrite Hb.
  - intros kb keywords. unfold find_best_solution.
    by rewrite (foldl_consider_lower _ _ _ _ _ Ht).
Qed.

Lemma analysis_ignores_case_witness :
  lower "URGENT: Login" = lower "urgent: login"
  ∧ lower "System DOWN, need help ASAP" = lower "system down, need help asap"
  ∧ determine_priority "URGENT: Login" "System DOWN, need help ASAP"
    = determine_priority "urgent: login" "system down, need help asap".
Proof.
  split_and!; [reflexivity|reflexivity|].
  apply (analysis_ignores_case "URGENT: Login" "urgent: login"
           "System DOWN, need help ASAP" "system down, need help asap");
    reflexivity.
Defined.

(** A state that no row of [kb] beats is left as it is. *)
Lemma foldl_consider_settled keywords text kb (st : best) :
  Forall (λ row, total_score keywords text row ≤ st.2) kb →
  foldl (consider keywords text) st kb = st.
Proof.
  induction 1 as [|row kb Hrow _ IH]; [done|]. simpl.
  unfold consider at 2. destruct (Nat.ltb_spec st.2 (total_score keywords text row)); [lia|].
  done.
Qed.

Lemma foldl_consider_bound keywords text kb st :
  let st' := foldl (consider keywords text) st kb in
  st.2 ≤ st'.2 ∧ Forall (λ row, total_score keywords text row ≤ st'.2) kb.
Proof.
  revert st. induction kb as [|row kb IH]; intros st; simpl; [by split|].
  destruct (IH (consider keywords text st row)) as [Hle Hall].
  assert (st.2 ≤ (consider keywords text st row).2
          ∧ total_score keywords text row ≤ (consider keywords text st row).2) as [H1 H2].
  { unfold consider.
    destruct (Nat.ltb_spec st.2 (total_score keywords text row)); simpl; lia. }
  split; [lia|]. constructor; [lia|done].
Qed.

(** X4.  Rows that are already in the knowledge base change nothing
    when they are added once more: the matcher answers as before.  So a
    knowledge base that [load_knowledge_base] has filled twice matches
    like one that it has filled once. *)
Theorem find_best_solution_reloaded (kb again : list kb_row) (db : database)
    (keywords : list string) (subject body : string) :
  find_best_solution (kb ++ again ++ again) keywords subject body
  = find_best_solution (kb ++ again) keywords subject body
  ∧ find_best_solution
      (knowledge_base (load_knowledge_base (load_knowledge_base db)))
      keywords subject body
    = find_best_solution (knowledge_base (load_knowledge_base db))
        keywords subject body.
Proof.
  assert (∀ l m, find_best_solution (l ++ m ++ m) keywords subject body
                 = find_best_solution (l ++ m) keywords subject body) as Hgen.
  { intros l m. unfold find_best_solution.
    rewrite (assoc_L (++) l m m), (foldl_app _ (l ++ m) m).
    rewrite foldl_consider_settled; [done|].
    rewrite foldl_app.
    apply (foldl_consider_bound keywords (subject +:+ " " +:+ body) m). }
  split; [apply Hgen|]. simpl. rewrite <-(assoc_L (++)). apply Hgen.
Qed.

End robustness.

(** ** The stored emails under the routes *)
Section store.
Import EmailAssistant.

(** [row] but for its response, and but for its status. *)
Definition without_response (row : email_row) : email_row :=
  set_ai_response EmptyString row.

Lemma regenerate_response_frame_rows stamp email_id db j :
  without_response <$> emails (regenerate_response stamp email_id db).2 !! j
  = without_response <$> emails db !! j.
Proof.
  destruct email_id as [i|]; [|done].
  destruct (emails db !! i) as [row|] eqn:Hrow.
  - destruct (regenerate_response_found stamp i db row Hrow) as (text & -> & _).
    simpl. rewrite lookup_insert. destruct (decide (i = j)) as [->|]; [|done].
    by rewrite Hrow.
  - unfold regenerate_response. simpl. by rewrite Hrow.
Qed.


Lemma set_status_idemp st row :
  Routes.set_status st (Routes.set_status st row) = Routes.set_status st row.
Proof. done. Qed.





End store.

(** ** Processing an email *)
Section processing.
Import EmailAssistant.
Context `{SetOrder}.

Lemma foldr_max_bound (l : list Z) k : k ∈ l → (k ≤ foldr Z.max 0 l)%Z.
Proof.
  induction 1 as [k l|k k' l _ IH]; simpl; lia.
Qed.

Lemma next_id_fresh (rows : gmap Z email_row) : rows !! Pipeline.next_id rows = None.
Proof.
  apply not_elem_of_dom. intros Hin%elem_of_elements%foldr_max_bound.
  unfold Pipeline.next_id in Hin. lia.
Qed.

Lemma analyze_sentiment_str sentiment_analyzer (text : string) :
  ∃ found, Pipeline.analyze_sentiment sentiment_analyzer (PStr text) = Ok found
           ∧ found.1 ∈ sentiment_labels.
Proof.
  unfold Pipeline.analyze_sentiment.
  assert (∃ found, Pipeline.rule_based_sentiment_dyn (PStr text) = Ok found
                   ∧ found.1 ∈ sentiment_labels) as Hrule.
  { eexists. split; [done|]. apply rule_based_sentiment_label. }
  destruct sentiment_analyzer as [run_model|]; [|done].
  unfold Pipeline.model_sentiment.
  destruct (run_model (PStr text)) as [[|[|first others] results]|e]; try done.
  eexists. split; [done|]. apply label_mapping_label.
Qed.

(** Synthesis reads six fields of the record and no other. *)
Lemma generate_ai_response_reads kb stamp (d1 d2 : gmap string pyval) :
  d1 !! "sender" = d2 !! "sender" → d1 !! "subject" = d2 !! "subject" →
  d1 !! "body" = d2 !! "body" → d1 !! "priority" = d2 !! "priority" →
  d1 !! "sentiment" = d2 !! "sentiment" → d1 !! "keywords" = d2 !! "keywords" →
  generate_ai_response kb stamp d1 = generate_ai_response kb stamp d2.
Proof.
  intros Hs Hsu Hb Hp Hse Hk.
  unfold generate_ai_response, sender_name_of, synthesize, getitem.
  by rewrite Hs, Hsu, Hb, Hp, Hse, Hk.
Qed.

(** The row [process_email] stores for three strings. *)
Definition analysed_row (sentiment_analyzer : Pipeline.backend) (stamp : string)
    (kb : list kb_row) (sender_s subject_s body_s : string) (row : email_row) : Prop :=
  sender row = sender_s
  ∧ subject row = subject_s
  ∧ body row = body_s
  ∧ priority row = determine_priority subject_s body_s
  ∧ (∃ confidence, Pipeline.analyze_sentiment sentiment_analyzer (PStr body_s)
                   = Ok (sentiment row, confidence))
  ∧ keywords row = join ", " (extract_keywords (subject_s +:+ " " +:+ body_s))
  ∧ contact_info row = extract_contact_info body_s
  ∧ requirements row = extract_requirements subject_s body_s
  ∧ generate_ai_response kb stamp (stored_fields row) = Ok (ai_response row)
  ∧ status row = "pending".

Lemma process_email_ok sentiment_analyzer now_iso stamp db (sender subject body : string) :
  ∃ email_data row,
    Pipeline.process_email sentiment_analyzer now_iso stamp db
      (PStr sender) (PStr subject) (PStr body)
    = Ok (email_data,
          {| emails := <[Pipeline.next_id (emails db) := row]> (emails db);
             knowledge_base := knowledge_base db |})
    ∧ analysed_row sentiment_analyzer stamp (knowledge_base db) sender subject body row
    ∧ email_data !! "id" = Some (PInt (Pipeline.next_id (emails db)))
    ∧ email_data !! "ai_response" = Some (PStr (ai_response row))
    ∧ email_data !! "date_received" = Some (PStr now_iso)
    ∧ stored_fields row ⊆ email_data.
Proof.
  unfold Pipeline.process_email.
  destruct (analyze_sentiment_str sentiment_analyzer body) as (found & Hf & Hl).
  rewrite Hf. cbn [bind fst snd].
  set (ks := join ", " (extract_keywords (subject +:+ " " +:+ body))).
  set (pr := determine_priority subject body).
  set (ci := extract_contact_info body).
  set (rq := extract_requirements subject body).
  set (email_data := list_to_map _).
  destruct (generate_ai_response_sender_str (knowledge_base db) stamp email_data sender)
    as [text Hg]; [reflexivity|].
  rewrite Hg. cbn [bind].
  eexists _, _. split; [reflexivity|]. split_and!; try reflexivity.
  - unfold analysed_row. simpl. split_and!; try reflexivity.
    + exists found.2. rewrite Hf. by destruct found.
    + rewrite <-Hg. by apply generate_ai_response_reads.
  - apply map_subseteq_spec. intros k v Hk.
    apply elem_of_list_to_map_2 in Hk.
    repeat (apply elem_of_cons in Hk as [[= -> ->]|Hk]; [reflexivity|]).
    by apply elem_of_nil in Hk.
Qed.

End processing.

Section processing_properties.
Import EmailAssistant.
Context `{SetOrder}.

Lemma next_id_positive (rows : gmap Z email_row) : (1 ≤ Pipeline.next_id rows)%Z.
Proof.
  assert (∀ l : list Z, (0 ≤ foldr Z.max 0 l)%Z) as Hl
    by (induction l; simpl; lia).
  unfold Pipeline.next_id. specialize (Hl (elements (dom rows))). lia.
Qed.

(** X7.  Processing three ASCII strings, while the table has room for
    another id, does not fail.  It stores one new row, under an id
    between 1 and 2^63 - 1 that no stored email had, with status pending,
    and leaves the other rows and the knowledge base as they were.  The
    row holds the analysis of the email (priority, sentiment of the
    classifier, keywords joined by comma and space, contact information,
    requirements) and, as its response, the synthesis from these stored
    fields; the returned record carries the same fields, the response,
    the id and the time of receipt. *)
Theorem process_email_stores (sentiment_analyzer : Pipeline.backend)
    (now_iso stamp : string) (db : database) (sender_s subject_s body_s : string) :
  ascii_text sender_s = true →
  ascii_text subject_s = true →
  ascii_text body_s = true →
  Pipeline.has_room db →
  ∃ email_data row,
    Pipeline.process_email sentiment_analyzer now_iso stamp db
      (PStr sender_s) (PStr subject_s) (PStr body_s)
    = Ok (email_data,
          {| emails := <[Pipeline.next_id (emails db) := row]> (emails db);
             knowledge_base := knowledge_base db |})
    ∧ emails db !! Pipeline.next_id (emails db) = None
    ∧ (1 ≤ Pipeline.next_id (emails db) ≤ Pipeline.max_rowid)%Z
    ∧ analysed_row sentiment_analyzer stamp (knowledge_base db)
        sender_s subject_s body_s row
    ∧ email_data !! "id" = Some (PInt (Pipeline.next_id (emails db)))
    ∧ email_data !! "ai_response" = Some (PStr (ai_response row))
    ∧ email_data !! "date_received" = Some (PStr now_iso)
    ∧ stored_fields row ⊆ email_data.
Proof.
  intros _ _ _ Hroom.
  destruct (process_email_ok sentiment_analyzer now_iso stamp db
              sender_s subject_s body_s)
    as (email_data & row & Hp & Hrow & Hid & Hai & Hdate & Hsub).
  exists email_data, row. split_and!; try done.
  - apply next_id_fresh.
  - apply next_id_positive.
Qed.


(** What [process_email] does when it returns, whatever it was given. *)
Lemma process_email_inv sentiment_analyzer now_iso stamp db sender subject body
    email_data db' :
  Pipeline.process_email sentiment_analyzer now_iso stamp db sender subject body
    = Ok (email_data, db') →
  (∃ s u b, sender = PStr s ∧ subject = PStr u ∧ body = PStr b)
  ∧ ∃ row, status row = "pending"
           ∧ db' = {| emails := <[Pipeline.next_id (emails db) := row]> (emails db);
                      knowledge_base := knowledge_base db |}.
Proof.
  unfold Pipeline.process_email.
  destruct (Pipeline.analyze_sentiment _ _) as [found|]; cbn [bind];
    [|intros ?; discriminate].
  destruct subject as [u| |], body as [b| |]; cbn [bind fst snd];
    try (intros ?; discriminate).
  destruct (generate_ai_response _ _ _) as [text|]; cbn [bind];
    [|intros ?; discriminate].
  destruct sender as [s| |]; try (intros ?; discriminate). intros [= <- <-].
  split; [by eexists _, _, _|]. eexists. split; [|reflexivity]. reflexivity.
Qed.

Definition nonempty_string (v : option pyval) : Prop :=
  ∃ s, v = Some (PStr s) ∧ s ≠ EmptyString.

Lemma truthy_default_nonempty (v : option pyval) s :
  default (PStr EmptyString) v = PStr s →
  truthy (default (PStr EmptyString) v) = true → nonempty_string v.
Proof.
  destruct v as [[s'| |n]|]; simpl; try done.
  intros [= ->] Ht. exists s. split; [done|]. intros ->. done.
Qed.

Lemma nonempty_string_truthy (v : option pyval) s :
  v = Some (PStr s) → s ≠ EmptyString →
  default (PStr EmptyString) v = PStr s
  ∧ truthy (default (PStr EmptyString) v) = true.
Proof.
  intros -> Hs. split; [done|]. simpl. by destruct s.
Qed.

(** The three fields as the handler reads them, and their test. *)
Definition field (data : gmap string pyval) (key : string) : pyval :=
  default (PStr EmptyString) (data !! key).
Definition all_fields (data : gmap string pyval) : bool :=
  truthy (field data "sender") && truthy (field data "subject")
  && truthy (field data "body").

(** X9.  The processing route answers 200 only for a JSON object whose
    sender, subject and body are non-empty strings, and it does answer
    200 for these when they are ASCII and the table has room.  It
    answers 400 exactly when the body is a JSON object in which one of
    the three is missing, empty, null or zero.  Every other request ends
    in 500: a body that is no JSON object, or a failure while the email
    is processed.  Both 400 and 500 leave the database as it was. *)
Theorem process_email_route_outcome (sentiment_analyzer : Pipeline.backend)
    (now_iso stamp : string) (body : Requests.request_json) (db : database) :
  let out := Requests.process_email sentiment_analyzer now_iso stamp body db in
  match out.1 with
  | Requests.Replied (Routes.Processed200 _) =>
      ∃ data, body = Requests.JsonObject data
              ∧ nonempty_string (data !! "sender")
              ∧ nonempty_string (data !! "subject")
              ∧ nonempty_string (data !! "body")
  | Requests.Replied Routes.MissingFields400 =>
      out.2 = db
      ∧ ∃ data, body = Requests.JsonObject data ∧ all_fields data = false
  | Requests.Replied (Routes.ProcessError500 _) =>
      out.2 = db
      ∧ ∃ data, body = Requests.JsonObject data ∧ all_fields data = true
  | Requests.Failed500 _ =>
      out.2 = db ∧ body = Requests.NoJsonObject
  end
  ∧ (∀ data, body = Requests.JsonObject data → all_fields data = false →
             out.1 = Requests.Replied Routes.MissingFields400)
  ∧ (∀ data s u b,
       body = Requests.JsonObject data →
       data !! "sender" = Some (PStr s) → data !! "subject" = Some (PStr u) →
       data !! "body" = Some (PStr b) →
       s ≠ EmptyString → u ≠ EmptyString → b ≠ EmptyString →
       ascii_text s = true → ascii_text u = true → ascii_text b = true →
       Pipeline.has_room db →
       ∃ email_data, out.1 = Requests.Replied (Routes.Processed200 email_data)).
Proof.
  intros out. unfold out. destruct body as [data|]; [|by split_and!].
  unfold Requests.process_email, Routes.process_email.
  fold (field data "sender") (field data "subject") (field data "body").
  fold (all_fields data). split_and!.
  - destruct (all_fields data) eqn:Hall; simpl; [|by eauto].
    pose proof Hall as Hall'.
    apply andb_true_iff in Hall as [[Hs Hu]%andb_true_iff Hb].
    destruct (Pipeline.process_email _ _ _ _ _ _ _) as [[email_data db']|e] eqn:Hp;
      simpl; [|by eauto].
    apply process_email_inv in Hp as [(s & u & b & Hs' & Hu' & Hb') _].
    exists data. split_and!; [done|..]; by eapply truthy_default_nonempty.
  - intros ? [= <-] ->. done.
  - intros ? s u b [= <-] Hs Hu Hb Hs' Hu' Hb' _ _ _ _.
    destruct (nonempty_string_truthy _ _ Hs Hs') as [Hfs Hts].
    destruct (nonempty_string_truthy _ _ Hu Hu') as [Hfu Htu].
    destruct (nonempty_string_truthy _ _ Hb Hb') as [Hfb Htb].
    unfold all_fields, field. rewrite Hts, Htu, Htb, Hfs, Hfu, Hfb. simpl.
    destruct (process_email_ok sentiment_analyzer now_iso stamp db s u b)
      as (email_data & ? & -> & _).
    by exists email_data.
Qed.

(** Every stored email is pending or resolved. *)
Definition statuses_closed (db : database) : Prop :=
  map_Forall (λ _ row, status row = "pending" ∨ status row = "resolved") (emails db).

(** X10.  If every stored email is pending or resolved, this is still
    so after any of the three routes that write: processing an email,
    marking one as resolved, regenerating a response. *)
Theorem statuses_closed_preserved (sentiment_analyzer : Pipeline.backend)
    (now_iso stamp : string) (data : gmap string pyval) (email_id : option Z)
    (db : database) :
  statuses_closed db →
  statuses_closed (Routes.process_email sentiment_analyzer now_iso stamp data db).2
  ∧ statuses_closed (Routes.send_response email_id db).2
  ∧ statuses_closed (regenerate_response stamp email_id db).2.
Proof.
  intros Hdb. split_and!.
  - unfold Routes.process_email. destruct (negb _); [done|].
    destruct (Pipeline.process_email _ _ _ _ _ _ _) as [[email_data db']|e] eqn:Hp;
      [|done].
    apply process_email_inv in Hp as (_ & row & Hrow & ->). simpl.
    apply map_Forall_insert_2; [by left|done].
  - intros j row. simpl. destruct email_id as [i|]; [|apply Hdb].
    rewrite lookup_alter. destruct (decide (i = j)) as [->|]; [|apply Hdb].
    destruct (emails db !! j); [|done]. intros [= <-]. by right.
  - intros j row Hj.
    pose proof (regenerate_response_frame_rows stamp email_id db j) as Hfr.
    rewrite Hj in Hfr. destruct (emails db !! j) as [row0|] eqn:Hrow0; [|done].
    specialize (Hdb _ _ Hrow0). simpl in Hdb, Hfr.
    apply (f_equal (fmap status)) in Hfr. simpl in Hfr.
    injection Hfr as ->. done.
Qed.

End processing_properties.

(** ** The extracted keywords *)
Section vocabulary.
Import EmailAssistant.
Context `{SetOrder}.

(** The words of the domain patterns. *)
Definition tech_words : list (list string) :=
  [ ["api"; "sdk"; "webhook"; "integration"; "database"; "server"; "application"];
    ["error code"; "bug"; "crash"; "timeout"; "connection"];
    ["account"; "login"; "password"; "authentication"; "access"];
    ["billing"; "payment"; "invoice"; "subscription"; "refund"] ].

Definition vocabulary : list string := mjoin tech_words ++ urgent_keywords.

Lemma tech_patterns_words : tech_patterns = any_word <$> tech_words.
Proof. reflexivity. Qed.

Lemma run_any_word_elem ws cur res :
  res ∈ run true (any_word ws) cur →
  ∃ w k, w ∈ ws ∧ lower w = lower k ∧ res.2 = [k].
Proof.
  destruct cur as [prev s].
  change (any_word ws) with (Seq Bnd (Seq (Grp (alts (lit <$> ws))) Bnd)).
  intros (c1 & g1 & g2 & [_ [= -> ->]]%run_bnd_elem & H2 & Hg)%run_seq_elem.
  apply run_seq_elem in H2 as (c2 & g3 & g4 & H2 & [_ [= _ ->]]%run_bnd_elem & Hg2).
  cbn [fst snd] in *.
  apply run_grp_elem in H2 as (g & H2 & Hg3). cbn [fst snd] in *.
  apply run_alts_elem in H2 as (r & (w & -> & Hw)%list_elem_of_fmap & H2).
  apply run_lit_elem in H2 as (k & s' & -> & Ha & [= -> ->]).
  rewrite consumed_app in Hg3. exists w, k. split; [done|]. split; [done|].
  rewrite Hg, Hg2, Hg3. done.
Qed.

Lemma findall_any_word ws text k :
  k ∈ findall true (any_word ws) text → ∃ w, w ∈ ws ∧ lower w = lower k.
Proof.
  unfold findall. intros (h & -> & Hh)%list_elem_of_fmap.
  apply finditer_from_elem in Hh as (cur & res & Hr & ->).
  apply run_any_word_elem in Hr as (w & k & Hw & Hl & ->). by exists w.
Qed.

Lemma collected_keywords_vocabulary text k :
  k ∈ collected_keywords text → lower k ∈ vocabulary.
Proof.
  intros [(p & Hp & Hk)|[Hk _]]%elem_of_collected_keywords.
  - rewrite tech_patterns_words in Hp.
    apply list_elem_of_fmap in Hp as (ws & -> & Hws).
    apply findall_any_word in Hk as (w & Hw & Hl). rewrite <-Hl.
    assert (w ∈ mjoin tech_words) as Hin by (apply list_elem_of_join; eauto).
    assert (Forall (λ w, lower w ∈ vocabulary) (mjoin tech_words)) as Hall.
    { apply (bool_decide_unpack _). vm_compute. exact I. }
    by apply (proj1 (Forall_forall _ _) Hall).
  - assert (Forall (λ w, lower w ∈ vocabulary) urgent_keywords) as Hall.
    { apply (bool_decide_unpack _). vm_compute. exact I. }
    by apply (proj1 (Forall_forall _ _) Hall).
Qed.

Lemma extract_keywords_collected text k :
  k ∈ extract_keywords text → k ∈ collected_keywords text.
Proof.
  unfold extract_keywords. intros Hk. apply (subseteq_take 10) in Hk.
  pose proof (list_set_perm (collected_keywords text)) as Hp.
  rewrite Hp in Hk. by rewrite elem_of_remove_dups in Hk.
Qed.

(** X11.  Every keyword extracted from an ASCII text is, up to letter
    case, one of the 22 words of the domain patterns or one of the 17
    urgent keywords. *)
Theorem extract_keywords_vocabulary (text : string) :
  ascii_text text = true →
  Forall (λ k, lower k ∈ vocabulary) (extract_keywords text)
  ∧ length vocabulary = 39.
Proof.
  intros _. split; [|reflexivity]. apply Forall_forall. intros k Hk.
  by apply (collected_keywords_vocabulary text), extract_keywords_collected.
Qed.

End vocabulary.

(** ** Keywords through the [keywords] column *)
Section keyword_column.
Import EmailAssistant.
Context `{SetOrder}.

Definition comma_free (s : string) : bool :=
  all_chars (λ c, negb (Ascii.eqb c ",")) s.

Lemma split_from_cons sep c s :
  split_from sep 0 (String c s)
  = if startswith sep (String c s)
    then EmptyString :: split_from sep (String.length sep - 1) s
    else match split_from sep 0 s with
         | piece :: pieces => String c piece :: pieces
         | [] => [String c EmptyString]
         end.
Proof. reflexivity. Qed.

Lemma startswith_cons a p c s :
  startswith (String a p) (String c s)
  = if Ascii.eqb a c then startswith p s else false.
Proof. reflexivity. Qed.

Lemma comma_free_cons c x :
  comma_free (String c x) = true → Ascii.eqb "," c = false ∧ comma_free x = true.
Proof.
  intros [Hc Hx]%andb_true_iff. apply negb_true_iff in Hc.
  by rewrite Ascii.eqb_sym in Hc.
Qed.

Lemma split_comma_free x : comma_free x = true → split ", " x = [x].
Proof.
  unfold split. induction x as [|c x IH]; [done|].
  intros [Hc Hx]%comma_free_cons.
  by rewrite split_from_cons, startswith_cons, Hc, (IH Hx).
Qed.

Lemma split_comma_free_app x rest :
  comma_free x = true →
  split ", " (x +:+ ", " +:+ rest) = x :: split ", " rest.
Proof.
  unfold split. induction x as [|c x IH]; [done|]. rewrite app_cons.
  intros [Hc Hx]%comma_free_cons.
  by rewrite split_from_cons, startswith_cons, Hc, (IH Hx).
Qed.

Lemma split_join ks :
  Forall (λ k, comma_free k = true) ks → ks ≠ [] →
  split ", " (join ", " ks) = ks.
Proof.
  induction 1 as [|k ks Hk Hks IH]; [done|]. intros _.
  destruct ks as [|k' ks]; [by apply split_comma_free|].
  change (join ", " (k :: k' :: ks)) with (k +:+ ", " +:+ join ", " (k' :: ks)).
  rewrite split_comma_free_app by done. by rewrite IH.
Qed.

Lemma comma_free_lower s : comma_free (lower s) = comma_free s.
Proof.
  unfold comma_free. induction s as [|c s IH]; [done|]. simpl. rewrite IH. f_equal.
  by destruct c as [[] [] [] [] [] [] [] []].
Qed.

Lemma vocabulary_plain :
  Forall (λ w, comma_free w = true ∧ w ≠ EmptyString) vocabulary.
Proof. repeat constructor; done. Qed.

Lemma extract_keywords_plain text :
  Forall (λ k, comma_free k = true ∧ k ≠ EmptyString) (extract_keywords text).
Proof.
  apply Forall_forall. intros k Hk%extract_keywords_collected.
  apply collected_keywords_vocabulary in Hk.
  destruct (proj1 (Forall_forall _ _) vocabulary_plain _ Hk) as [Hc Hne].
  rewrite comma_free_lower in Hc. split; [done|]. by intros ->.
Qed.

(** X12.  The keywords survive the [keywords] column: what synthesis
    reads back from the stored string (nothing when it is empty, else
    its pieces between comma and space) is the list that extraction
    returned, since no keyword is empty or holds a comma. *)
Theorem keywords_column_round_trip (text : string) :
  let keywords := extract_keywords text in
  let stored := PStr (join ", " keywords) in
  (if truthy stored then split ", " (join ", " keywords) else []) = keywords
  ∧ Forall (λ k, comma_free k = true ∧ k ≠ EmptyString) keywords.
Proof.
  intros keywords stored. pose proof (extract_keywords_plain text) as Hp.
  fold keywords in Hp. split; [|done]. unfold stored. cbn [truthy].
  destruct keywords as [|k ks]; [done|].
  assert (join ", " (k :: ks) ≠ EmptyString) as Hne.
  { apply Forall_cons in Hp as [[_ Hk] _]. intros Hj.
    pose proof (first_char_join ", " k ks Hk) as Hf. rewrite Hj in Hf.
    by destruct k. }
  destruct (String.eqb_spec (join ", " (k :: ks)) EmptyString) as [|_]; [done|].
  cbn [negb]. apply split_join; [|done]. eapply Forall_impl; [done|]. by intros ? [? _].
Qed.

End keyword_column.

(** ** What reaches the reply *)
Section reply.
Import EmailAssistant.

(** The [try] block up to the call of [format]: the template, the
    solution, the escalation text and whether the body thanks. *)
Record plan : Type := {
  plan_template : string;
  plan_found : string * string;
  plan_additional_info : string
}.

Definition synthesis_plan (kb_entries : list kb_row)
    (email_data : gmap string pyval) : result plan :=
  sentiment ←! getitem email_data "sentiment";
  priority ←! getitem email_data "priority";
  kw ←! getitem email_data "keywords";
  keywords ←! (if truthy kw then s ←! as_str kw; Ok (split ", " s) else Ok []);
  subject ←! getitem email_data "subject";
  body ←! getitem email_data "body";
  found ←! find_best_solution_dyn kb_entries keywords subject body;
  template ←! getitem response_templates
                (template_key (py_str priority) (py_str sentiment));
  body ←! as_str body;
  Ok {| plan_template := template;
        plan_found := found;
        plan_additional_info :=
          if contains "thank" (lower body)
          then "We truly appreciate your positive feedback!"
          else if eq_str priority "urgent"
          then "This case has been escalated. " +:+ found.2
          else EmptyString |}.

Lemma synthesize_plan kb stamp email_data sender_name :
  synthesize kb stamp email_data sender_name
  = p ←! synthesis_plan kb email_data;
    format (plan_template p)
      (response_kwargs sender_name (plan_found p).1 ("SUP" +:+ stamp)
         (plan_additional_info p)).
Proof.
  unfold synthesize, synthesis_plan.
  destruct (getitem email_data "sentiment"); cbn [bind]; [|done].
  destruct (getitem email_data "priority"); cbn [bind]; [|done].
  destruct (getitem email_data "keywords"); cbn [bind]; [|done].
  destruct (if truthy _ then _ else _); cbn [bind]; [|done].
  destruct (getitem email_data "subject"); cbn [bind]; [|done].
  destruct (getitem email_data "body"); cbn [bind]; [|done].
  destruct (find_best_solution_dyn _ _ _ _); cbn [bind]; [|done].
  destruct (getitem response_templates _); cbn [bind]; [|done].
  destruct (as_str _); cbn [bind]; done.
Qed.

Lemma fill_agree segs (kw1 kw2 : gmap string string) :
  Forall (λ name, kw1 !! name = kw2 !! name) (fields_of segs) →
  fill segs kw1 = fill segs kw2.
Proof.
  induction segs as [|[c|name] segs IH]; intros Hf; simpl; [done|by rewrite IH|].
  unfold fields_of in Hf. simpl in Hf. apply Forall_cons in Hf as [-> Hf].
  by rewrite (IH Hf).
Qed.

(** The literal text a template begins with. *)
Fixpoint literal_prefix (segs : list segment) : string :=
  match segs with
  | Text c :: segs' => String c (literal_prefix segs')
  | _ => EmptyString
  end.

Lemma fill_literal_prefix segs kwargs text :
  fill segs kwargs = Ok text → ∃ rest, text = literal_prefix segs +:+ rest.
Proof.
  revert text. induction segs as [|[c|name] segs IH]; intros text; simpl.
  - intros [= <-]. by exists EmptyString.
  - destruct (fill segs kwargs) as [rest|] eqn:E; [|done]. intros [= <-].
    destruct (IH rest eq_refl) as [rest' ->]. by exists rest'.
  - intros _. by exists text.
Qed.

Definition urgent_template_keys : list string := [ "urgent_negative"; "urgent_neutral" ].

Lemma other_template_key key template :
  key ∈ template_keys → key ∉ urgent_template_keys →
  response_templates !! key = Some template →
  template = template_normal_positive ∨ template = template_normal_neutral.
Proof.
  unfold template_keys, urgent_template_keys. intros Hk Hn.
  repeat (apply elem_of_cons in Hk as [->|Hk]);
    try (by apply elem_of_nil in Hk);
    try (by destruct Hn; repeat constructor);
    intros [= <-]; auto.
Qed.

Lemma format_ignores_ticket template sender_name solution ticket1 ticket2 info :
  template = template_normal_positive ∨ template = template_normal_neutral →
  format template (response_kwargs sender_name solution ticket1 info)
  = format template (response_kwargs sender_name solution ticket2 info).
Proof.
  assert (∀ t, fields_of (default [Field "ticket_id"] (parse_template None t))
               = ["sender_name"; "solution"; "additional_info"] →
               format t (response_kwargs sender_name solution ticket1 info)
               = format t (response_kwargs sender_name solution ticket2 info)) as Hok.
  { intros t Ht. unfold format. destruct (parse_template None t) as [segs|]; [|done].
    apply fill_agree. simpl in Ht. rewrite Ht. by repeat constructor. }
  intros [->| ->]; apply Hok; vm_compute; reflexivity.
Qed.

Lemma format_ignores_info template sender_name solution ticket info1 info2 :
  template = template_urgent_negative ∨ template = template_urgent_neutral →
  format template (response_kwargs sender_name solution ticket info1)
  = format template (response_kwargs sender_name solution ticket info2).
Proof.
  assert (∀ t, fields_of (default [Field "additional_info"] (parse_template None t))
               = ["sender_name"; "solution"; "ticket_id"] →
               format t (response_kwargs sender_name solution ticket info1)
               = format t (response_kwargs sender_name solution ticket info2)) as Hok.
  { intros t Ht. unfold format. destruct (parse_template None t) as [segs|]; [|done].
    apply fill_agree. simpl in Ht. rewrite Ht. by repeat constructor. }
  intros [->| ->]; apply Hok; vm_compute; reflexivity.
Qed.

(** The key that the fields of a record select, when it has them. *)
Definition selected_key (email_data : gmap string pyval) : option string :=
  p ← email_data !! "priority"; s ← email_data !! "sentiment";
  Some (template_key (py_str p) (py_str s)).

Lemma synthesis_plan_template kb email_data p :
  synthesis_plan kb email_data = Ok p →
  ∃ key, selected_key email_data = Some key
         ∧ response_templates !! key = Some (plan_template p).
Proof.
  unfold synthesis_plan, selected_key, getitem.
  destruct (email_data !! "sentiment") as [s|]; cbn [bind]; [|done].
  destruct (email_data !! "priority") as [pr|]; cbn [bind]; [|done].
  destruct (email_data !! "keywords"); cbn [bind]; [|done].
  destruct (if truthy _ then _ else _); cbn [bind]; [|done].
  destruct (email_data !! "subject"); cbn [bind]; [|done].
  destruct (email_data !! "body"); cbn [bind]; [|done].
  destruct (find_best_solution_dyn _ _ _ _); cbn [bind]; [|done].
  destruct (response_templates !! _) as [t|] eqn:Ht; cbn [bind]; [|done].
  destruct (as_str _); cbn [bind]; [|done]. intros [= <-]. simpl.
  by eexists.
Qed.

(** X13.  Only the two urgent templates show the ticket.  Unless the
    record selects urgent_negative or urgent_neutral, the reply (or the
    failure) of synthesis is the same at any two clock readings: records
    of normal priority, and urgent ones that fall back to normal_neutral,
    are regenerated to the very same text. *)
Theorem reply_without_ticket (kb : list kb_row) (stamp1 stamp2 : string)
    (email_data : gmap string pyval) :
  (∃ key, selected_key email_data = Some key ∧ key ∈ urgent_template_keys)
  ∨ generate_ai_response kb stamp1 email_data
    = generate_ai_response kb stamp2 email_data.
Proof.
  destruct (selected_key email_data) as [key|] eqn:Hkey.
  - destruct (decide (key ∈ urgent_template_keys)) as [Hu|Hu]; [left; by exists key|].
    right. unfold generate_ai_response.
    destruct (sender_name_of email_data) as [name|]; [|done].
    rewrite !synthesize_plan.
    destruct (synthesis_plan kb email_data) as [p|] eqn:Hp; [|done]. cbn [bind].
    destruct (synthesis_plan_template _ _ _ Hp) as (key' & Hkey' & Ht).
    rewrite Hkey in Hkey'. injection Hkey' as <-.
    assert (key ∈ template_keys) as Hin.
    { unfold selected_key in Hkey.
      destruct (email_data !! "priority"); [|done].
      destruct (email_data !! "sentiment"); [|done].
      injection Hkey as <-. apply template_key_listed. }
    by rewrite (format_ignores_ticket _ name (plan_found p).1 ("SUP" +:+ stamp1)
                  ("SUP" +:+ stamp2) _ (other_template_key _ _ Hin Hu Ht)).
  - right. unfold generate_ai_response.
    destruct (sender_name_of email_data) as [name|]; [|done].
    rewrite !synthesize_plan.
    destruct (synthesis_plan kb email_data) as [p|] eqn:Hp; [|done].
    destruct (synthesis_plan_template _ _ _ Hp) as (key' & Hkey' & _). congruence.
Qed.

(** X14.  A reply is never empty: whenever synthesis returns, the text
    begins with the greeting Dear or Hello; and it fails in one way only,
    with the unbound name of its handler. *)
Theorem reply_begins_with_greeting (kb : list kb_row) (stamp : string)
    (email_data : gmap string pyval) :
  match generate_ai_response kb stamp email_data with
  | Ok text => ∃ rest, text = "Dear " +:+ rest ∨ text = "Hello " +:+ rest
  | Raise e => e = UnboundLocalError "sender_name"
  end.
Proof.
  unfold generate_ai_response.
  destruct (sender_name_of email_data) as [name|]; [|done].
  rewrite synthesize_plan.
  destruct (synthesis_plan kb email_data) as [p|] eqn:Hp; cbn [bind];
    [|by exists (name +:+ ",

Thank you for contacting us. We've received your message and will respond within 24 hours.

Best regards,
Support Team"); left].
  destruct (format _ _) as [text|] eqn:Hf;
    [|by exists (name +:+ ",

Thank you for contacting us. We've received your message and will respond within 24 hours.

Best regards,
Support Team"); left].
  destruct (synthesis_plan_template _ _ _ Hp) as (key & _ & Ht).
  assert (∀ t greeting,
            literal_prefix (default [] (parse_template None t)) = greeting →
            format t (response_kwargs name (plan_found p).1 ("SUP" +:+ stamp)
                        (plan_additional_info p)) = Ok text →
            ∃ rest, text = greeting +:+ rest) as Hok.
  { intros t greeting Hg. unfold format.
    destruct (parse_template None t) as [segs|]; [|done]. simpl in Hg.
    intros [rest ->]%fill_literal_prefix. exists rest. by rewrite Hg. }
  apply elem_of_list_to_map_2 in Ht.
  repeat (apply elem_of_cons in Ht as [[= _ Ht]|Ht]); [..|by apply elem_of_nil in Ht];
    rewrite Ht in Hf.
  - destruct (Hok template_urgent_negative "Dear ") as [rest ->];
      [vm_compute; reflexivity|done|eauto].
  - destruct (Hok template_normal_positive "Hello ") as [rest ->];
      [vm_compute; reflexivity|done|eauto].
  - destruct (Hok template_normal_neutral "Hello ") as [rest ->];
      [vm_compute; reflexivity|done|eauto].
  - destruct (Hok template_urgent_neutral "Dear ") as [rest ->];
      [vm_compute; reflexivity|done|eauto].
Qed.

(** *** The escalation text *)

(** Two knowledge bases that differ in their escalation texts only. *)
Definition same_but_escalation (kb kb' : list kb_row) : Prop :=
  Forall2 (λ row row', category row = category row'
                       ∧ kb_keywords row = kb_keywords row'
                       ∧ solution row = solution row') kb kb'.

Lemma foldl_consider_solution keywords text kb kb' (st st' : best) :
  same_but_escalation kb kb' →
  st.2 = st'.2 → fst <$> st.1 = fst <$> st'.1 →
  (foldl (consider keywords text) st kb).2 = (foldl (consider keywords text) st' kb').2
  ∧ fst <$> (foldl (consider keywords text) st kb).1
    = fst <$> (foldl (consider keywords text) st' kb').1.
Proof.
  intros Hkb. revert st st'.
  induction Hkb as [|row row' kb kb' (_ & Hk & Hs) _ IH]; intros st st' H2 H1; [done|].
  simpl. apply IH.
  - unfold consider, total_score, overlap, text_similarity, kb_keywords_list.
    rewrite Hk, H2. by destruct (_ <? _).
  - unfold consider, total_score, overlap, text_similarity, kb_keywords_list.
    rewrite Hk, H2, Hs. by destruct (_ <? _).
Qed.

Lemma find_best_solution_text kb kb' keywords subject_s body_s :
  same_but_escalation kb kb' →
  (find_best_solution kb keywords subject_s body_s).1
  = (find_best_solution kb' keywords subject_s body_s).1.
Proof.
  intros Hkb. unfold find_best_solution.
  destruct (foldl_consider_solution keywords (subject_s +:+ " " +:+ body_s)
              kb kb' (None, 0) (None, 0) Hkb eq_refl eq_refl) as [_ H1].
  destruct (foldl _ _ kb) as [[m|] n], (foldl _ _ kb') as [[m'|] n'];
    simpl in *; congruence.
Qed.

Lemma eq_str_true v s : eq_str v s = true ↔ v = PStr s.
Proof.
  destruct v; simpl; [|done..]. rewrite String.eqb_eq. split; congruence.
Qed.

(** The plans for two such knowledge bases. *)
Lemma synthesis_plan_same_but_escalation kb kb' email_data :
  same_but_escalation kb kb' →
  match synthesis_plan kb email_data, synthesis_plan kb' email_data with
  | Ok p, Ok p' =>
      plan_template p = plan_template p'
      ∧ (plan_found p).1 = (plan_found p').1
      ∧ (plan_additional_info p = plan_additional_info p'
         ∨ email_data !! "priority" = Some (PStr "urgent"))
  | Raise e, Raise e' => e = e'
  | _, _ => False
  end.
Proof.
  intros Hkb. unfold synthesis_plan, getitem.
  destruct (email_data !! "sentiment") as [s|]; cbn [bind]; [|done].
  destruct (email_data !! "priority") as [pr|]; cbn [bind]; [|done].
  destruct (email_data !! "keywords"); cbn [bind]; [|done].
  destruct (if truthy _ then _ else _) as [keywords|]; cbn [bind]; [|done].
  destruct (email_data !! "subject") as [[u| |]|]; cbn [bind]; try done;
    destruct (email_data !! "body") as [[b| |]|]; cbn [bind]; try done.
  unfold find_best_solution_dyn. cbn [bind].
  destruct (response_templates !! _) as [t|]; cbn [bind]; [|done].
  simpl. split; [done|]. split; [by apply find_best_solution_text|].
  destruct (contains "thank" (lower b)); [by left|].
  destruct (eq_str pr "urgent") eqn:E; [|by left].
  apply eq_str_true in E as ->. by right.
Qed.

Lemma urgent_key_cases (sentiment_s : string) :
  template_key "urgent" sentiment_s ∈ urgent_template_keys
  ∨ template_key "urgent" sentiment_s = "normal_neutral".
Proof.
  rewrite template_key_eq. destruct (decide _) as [Hin|]; [|by right]. left.
  unfold template_keys, urgent_template_keys in *.
  repeat (apply elem_of_cons in Hin as [Hin|Hin]);
    try (by apply elem_of_nil in Hin); try discriminate Hin;
    rewrite Hin; by repeat constructor.
Qed.

(** X15.  The escalation text of the knowledge base is read into the
    additional information of urgent emails only, and the two urgent
    templates have no place for additional information.  So it can show
    in a reply only when the priority is urgent and the key falls back
    to normal_neutral (an urgent email whose sentiment is neither
    negative nor neutral): in every other case two knowledge bases that
    differ in their escalation texts alone give the same reply. *)
Theorem escalation_shows_on_fallback_only (kb kb' : list kb_row)
    (stamp : string) (email_data : gmap string pyval) :
  same_but_escalation kb kb' →
  (email_data !! "priority" = Some (PStr "urgent")
   ∧ selected_key email_data = Some "normal_neutral")
  ∨ generate_ai_response kb stamp email_data
    = generate_ai_response kb' stamp email_data.
Proof.
  intros Hkb. unfold generate_ai_response.
  destruct (sender_name_of email_data) as [name|]; [|by right].
  rewrite !synthesize_plan.
  pose proof (synthesis_plan_same_but_escalation kb kb' email_data Hkb) as Hrel.
  destruct (synthesis_plan kb email_data) as [p|] eqn:Hp,
    (synthesis_plan kb' email_data) as [p'|] eqn:Hp'; try done; [|by right].
  cbn [bind]. destruct Hrel as (Ht & Hs & [Hi|Hpr]).
  { right. by rewrite Ht, Hs, Hi. }
  destruct (synthesis_plan_template _ _ _ Hp) as (key & Hkey & Hlook).
  unfold selected_key in Hkey. rewrite Hpr in Hkey. simpl in Hkey.
  destruct (email_data !! "sentiment") as [s|] eqn:Hsent; [|done].
  simpl in Hkey. injection Hkey as <-.
  destruct (urgent_key_cases (py_str s)) as [Hu|Hn].
  - right. rewrite <-Ht, <-Hs.
    assert (plan_template p = template_urgent_negative
            ∨ plan_template p = template_urgent_neutral) as Hcase.
    { unfold urgent_template_keys in Hu.
      repeat (apply elem_of_cons in Hu as [Hu|Hu]);
        try (by apply elem_of_nil in Hu); rewrite Hu in Hlook;
        injection Hlook as <-; auto. }
    by rewrite (format_ignores_info _ name (plan_found p).1 ("SUP" +:+ stamp)
                  (plan_additional_info p) (plan_additional_info p') Hcase).
  - left. split; [done|]. unfold selected_key. rewrite Hpr, Hsent. simpl.
    by rewrite Hn.
Qed.

End reply.

(** ** The display name *)
Section display_name.
Import EmailAssistant.

Fixpoint string_map (f : ascii → ascii) (s : string) : string :=
  match s with
  | EmptyString => EmptyString
  | String c s' => String (f c) (string_map f s')
  end.

Definition dot_to_space (c : ascii) : ascii :=
  if Ascii.eqb c "." then " "%char else c.

Lemma split_from_nonempty sep skip s : split_from sep skip s ≠ [].
Proof.
  revert skip. induction s as [|c s IH]; intros skip; [done|]. simpl.
  destruct skip; [|apply IH]. destruct (startswith sep _); [done|].
  by destruct (split_from sep 0 s).
Qed.

Lemma join_cons_char sep c piece pieces :
  join sep (String c piece :: pieces) = String c (join sep (piece :: pieces)).
Proof. by destruct pieces. Qed.

Lemma replace_dot x : replace "." " " x = string_map dot_to_space x.
Proof.
  unfold replace, split. induction x as [|c x IH]; [done|].
  rewrite split_from_cons, startswith_cons. simpl string_map. unfold dot_to_space at 1.
  rewrite (Ascii.eqb_sym c "."). destruct (Ascii.eqb "." c).
  - change (startswith EmptyString x) with true. cbn [String.length Nat.sub].
    pose proof (split_from_nonempty "." 0 x) as Hne.
    destruct (split_from "." 0 x) as [|piece pieces] eqn:E; [done|].
    change (join " " (EmptyString :: piece :: pieces))
      with (String " " (join " " (piece :: pieces))).
    by rewrite IH.
  - pose proof (split_from_nonempty "." 0 x) as Hne.
    destruct (split_from "." 0 x) as [|piece pieces] eqn:E; [done|].
    by rewrite join_cons_char, IH.
Qed.

(** The text before the first at sign. *)
Lemma split_at_head s :
  ∃ rest, s = hd EmptyString (split "@" s) +:+ rest
          ∧ all_chars (λ c, negb (Ascii.eqb "@" c)) (hd EmptyString (split "@" s)) = true
          ∧ (rest = EmptyString ∨ first_char rest = Some "@"%char).
Proof.
  unfold split. induction s as [|c s (rest & Hs & Hall & Hrest)].
  - exists EmptyString. by split_and!; [..|left].
  - rewrite split_from_cons, startswith_cons. destruct (Ascii.eqb "@" c) eqn:Hc.
    + apply Ascii.eqb_eq in Hc as <-. exists (String "@" s). by split_and!; [..|right].
    + pose proof (split_from_nonempty "@" 0 s) as Hne.
      destruct (split_from "@" 0 s) as [|piece pieces] eqn:E; [done|].
      simpl in *. exists rest. split_and!; [by rewrite app_cons, <-Hs| |done].
      by rewrite Hc.
Qed.

Lemma title_from_lower cased s : lower (title_from cased s) = lower s.
Proof.
  revert cased. induction s as [|c s IH]; intros cased; [done|]. simpl.
  destruct (isalpha c) eqn:Hc; simpl; rewrite IH; f_equal.
  destruct cased; revert Hc; by destruct c as [[] [] [] [] [] [] [] []].
Qed.

Lemma title_from_length cased s :
  String.length (title_from cased s) = String.length s.
Proof.
  revert cased. induction s as [|c s IH]; intros cased; [done|]. simpl.
  destruct (isalpha c); simpl; by rewrite IH.
Qed.

Lemma string_map_length f s : String.length (string_map f s) = String.length s.
Proof. induction s as [|c s IH]; [done|]. simpl. by rewrite IH. Qed.

Definition plain_char (c : ascii) : bool := negb (one_of "@." c).

Lemma all_chars_lower_plain s : all_chars plain_char (lower s) = all_chars plain_char s.
Proof.
  induction s as [|c s IH]; [done|]. simpl. rewrite IH. f_equal.
  by destruct c as [[] [] [] [] [] [] [] []].
Qed.

Lemma all_chars_dot_to_space s :
  all_chars (λ c, negb (Ascii.eqb "@" c)) s = true →
  all_chars plain_char (string_map dot_to_space s) = true.
Proof.
  induction s as [|c s IH]; [done|]. simpl. intros [Hc Hs]%andb_true_iff.
  rewrite (IH Hs), andb_true_r. revert Hc.
  by destruct c as [[] [] [] [] [] [] [] []].
Qed.

(** X16.  For an ASCII sender, with or without an at sign, the name a
    reply greets is made from the sender's text before the first at sign:
    it has the same length, holds no at sign and no dot, and equals that
    text with every dot turned into a space, up to letter case. *)
Theorem sender_name_of_local_part (email_data : gmap string pyval) (sender_s : string) :
  email_data !! "sender" = Some (PStr sender_s) →
  ascii_text sender_s = true →
  ∃ name local rest,
    sender_name_of email_data = Ok name
    ∧ sender_s = local +:+ rest
    ∧ (rest = EmptyString ∨ first_char rest = Some "@"%char)
    ∧ all_chars (λ c, negb (Ascii.eqb "@" c)) local = true
    ∧ String.length name = String.length local
    ∧ lower name = lower (string_map dot_to_space local)
    ∧ all_chars plain_char name = true.
Proof.
  intros Hs _. destruct (split_at_head sender_s) as (rest & Hsplit & Hall & Hrest).
  set (local := hd EmptyString (split "@" sender_s)) in *.
  exists (title (replace "." " " local)), local, rest.
  assert (lower (title (replace "." " " local)) = lower (string_map dot_to_space local))
    as Hlow by (unfold title; by rewrite title_from_lower, replace_dot).
  split_and!; try done.
  - unfold sender_name_of, getitem. by rewrite Hs.
  - unfold title. by rewrite title_from_length, replace_dot, string_map_length.
  - rewrite <-all_chars_lower_plain, Hlow, all_chars_lower_plain.
    by apply all_chars_dot_to_space.
Qed.

Definition sample_sender : gmap string pyval :=
  {[ "sender" := PStr "john.q.public@example.com" ]}.

Lemma sender_name_of_local_part_witness :
  sample_sender !! "sender" = Some (PStr "john.q.public@example.com")
  ∧ ascii_text "john.q.public@example.com" = true
  ∧ ∃ name local rest,
      sender_name_of sample_sender = Ok name
      ∧ "john.q.public@example.com" = local +:+ rest
      ∧ (rest = EmptyString ∨ first_char rest = Some "@"%char)
      ∧ all_chars (λ c, negb (Ascii.eqb "@" c)) local = true
      ∧ String.length name = String.length local
      ∧ lower name = lower (string_map dot_to_space local)
      ∧ all_chars plain_char name = true.
Proof.
  assert (sample_sender !! "sender" = Some (PStr "john.q.public@example.com"))
    as Hs by reflexivity.
  assert (ascii_text "john.q.public@example.com" = true) as Ha by reflexivity.
  split; [done|]. split; [done|].
  apply (sender_name_of_local_part sample_sender "john.q.public@example.com" Hs Ha).
Defined.

Example sample_sender_name : sender_name_of sample_sender = Ok "John Q Public".
Proof. vm_compute. reflexivity. Qed.

End display_name.

(** ** The kept requirements *)
Section clauses.
Import EmailAssistant.

Definition clause_char (c : ascii) : bool := negb (one_of ".!?" c).

Lemma all_chars_app p s t : all_chars p (s +:+ t) = all_chars p s && all_chars p t.
Proof.
  induction s as [|c s IH]; [done|]. rewrite app_cons. simpl.
  by rewrite IH, andb_assoc.
Qed.

Lemma all_chars_ext p q s : (∀ c, p c = q c) → all_chars p s = all_chars q s.
Proof. intros Hpq. induction s as [|c s IH]; [done|]. simpl. by rewrite Hpq, IH. Qed.

Lemma all_chars_lstrip p s : all_chars p s = true → all_chars p (lstrip s) = true.
Proof.
  induction s as [|c s IH]; [done|]. simpl. intros Hs.
  destruct (isspace c); [|done]. apply IH. by apply andb_true_iff in Hs as [_ ?].
Qed.

Lemma all_chars_rstrip p s : all_chars p s = true → all_chars p (rstrip s) = true.
Proof.
  induction s as [|c s IH]; [done|]. simpl. intros [Hc Hs]%andb_true_iff.
  specialize (IH Hs). destruct (rstrip s) as [|d r].
  - destruct (isspace c); [done|]. simpl. by rewrite Hc.
  - simpl in *. by rewrite Hc, IH.
Qed.

Lemma all_chars_lower_clause s : all_chars clause_char (lower s) = all_chars clause_char s.
Proof.
  induction s as [|c s IH]; [done|]. simpl. rewrite IH. f_equal.
  by destruct c as [[] [] [] [] [] [] [] []].
Qed.

(** What a greedy repetition passes over is made of characters of its set. *)
Lemma rep_elem_chars ok lo hi prev s (c : cursor) :
  c ∈ rep ok lo hi prev s → ∃ w, s = w +:+ c.2 ∧ all_chars ok w = true.
Proof.
  revert lo hi prev. induction s as [|d s IH]; intros lo hi prev; simpl.
  - destruct lo; [|by intros ?%elem_of_nil].
    intros ->%list_elem_of_singleton. by exists EmptyString.
  - assert (c ∈ match lo with 0 => [(prev, String d s)] | S _ => [] end →
            ∃ w, String d s = w +:+ c.2 ∧ all_chars ok w = true) as Hstop.
    { destruct lo; [|by intros ?%elem_of_nil].
      intros ->%list_elem_of_singleton. by exists EmptyString. }
    destruct (ok d) eqn:Hd; simpl; [|done].
    destruct (negb _); [|done].
    intros [Hc|Hc]%elem_of_app; [|by apply Hstop].
    apply IH in Hc as (w & -> & Hw). exists (String d w). split; [done|].
    simpl. by rewrite Hd.
Qed.

Lemma run_trigger_clause_chars triggers cur res :
  res ∈ run true (trigger_clause triggers) cur →
  ∃ t w clause, t ∈ triggers ∧ lower t = lower w ∧ res.2 = [w; clause]
                ∧ all_chars clause_char clause = true.
Proof.
  destruct cur as [prev s].
  change (trigger_clause triggers)
    with (Seq (Grp (alts (lit <$> triggers)))
            (Seq (Chr " ") (Grp (Rep clause_char 0 None)))).
  intros (c1 & g1 & g2 & H1 & H2 & Hg)%run_seq_elem.
  apply run_grp_elem in H1 as (g & H1 & Hg1). simpl in H1, Hg1.
  apply run_alts_elem in H1 as (r & (t & -> & Ht)%list_elem_of_fmap & H1).
  apply run_lit_elem in H1 as (w & s' & -> & Ha & [= -> ->]).
  simpl in Hg1. rewrite consumed_app in Hg1.
  apply run_seq_elem in H2 as (c2 & g3 & g4 & H2 & H3 & Hg2).
  cbn [fst snd] in H3, Hg2.
  apply run_chr_elem in H2 as ->.
  apply run_grp_elem in H3 as (g5 & H3 & Hg4). cbn [fst snd] in H3, Hg4.
  change (run true (Rep ?p ?lo ?hi) c2)
    with ((λ c : cursor, (c, @nil string)) <$> rep (cls_ok true p) lo hi c2.1 c2.2) in H3.
  apply list_elem_of_fmap in H3 as (c3 & [= Hc3 ->] & Hrep).
  apply rep_elem_chars in Hrep as (clause & Hcl & Hall).
  rewrite Hc3, Hcl, consumed_app in Hg4.
  exists t, w, clause. split_and!; [done|done| |].
  - rewrite Hg, Hg1, Hg2. simpl. by rewrite Hg4.
  - rewrite <-Hall. apply all_chars_ext. intros c. unfold cls_ok.
    by destruct c as [[] [] [] [] [] [] [] []].
Qed.

Lemma requirement_triggers_clause :
  Forall (Forall (λ t, all_chars clause_char t = true)) requirement_triggers.
Proof. repeat constructor. Qed.

Lemma pattern_requirements_clause triggers text x :
  Forall (λ t, all_chars clause_char t = true) triggers →
  x ∈ pattern_requirements (trigger_clause triggers) text →
  10 < String.length x ∧ all_chars clause_char x = true.
Proof.
  intros Ht. unfold pattern_requirements.
  rewrite list_elem_of_In, filter_In, <-list_elem_of_In.
  intros [(m & -> & Hm)%list_elem_of_fmap Hlen]. apply Nat.ltb_lt in Hlen.
  split; [done|].
  apply (subseteq_take 3) in Hm. unfold findall_groups in Hm.
  apply list_elem_of_fmap in Hm as (h & -> & Hh).
  apply finditer_from_elem in Hh as (cur & res & Hr & ->).
  apply run_trigger_clause_chars in Hr as (t & w & clause & Hin & Hl & -> & Hc).
  rewrite Forall_forall in Ht. specialize (Ht _ Hin).
  rewrite <-all_chars_lower_clause, Hl, all_chars_lower_clause in Ht.
  unfold strip. apply all_chars_rstrip, all_chars_lstrip.
  change (join " " [w; clause]) with (w +:+ " " +:+ clause).
  by rewrite !all_chars_app, Ht, Hc.
Qed.

(** X17.  From an ASCII text, requirement extraction keeps at most nine
    requirements.  Each is longer than 10 characters, begins with the
    first letter of a trigger phrase (in either case), and is a single
    clause: it holds no full stop, exclamation mark or question mark. *)
Theorem kept_requirements_clauses (text : string) :
  ascii_text text = true →
  length (kept_requirements text) ≤ 9
  ∧ Forall (λ r, 10 < String.length r ∧ all_chars clause_char r = true
                 ∧ starts_like_trigger r)
      (kept_requirements text).
Proof.
  intros _. split.
  - unfold kept_requirements, requirement_patterns. simpl.
    rewrite !length_app. simpl.
    pose proof (pattern_requirements_length
      (trigger_clause ["need"; "want"; "require"; "request"; "looking for"; "help with"])
      text).
    pose proof (pattern_requirements_length
      (trigger_clause ["can you"; "could you"; "please"]) text).
    pose proof (pattern_requirements_length
      (trigger_clause ["i would like"; "i want"; "i need"]) text).
    lia.
  - pose proof (kept_requirements_start text) as Hstart.
    apply Forall_forall. intros x Hx.
    split_and!; [| |by apply (proj1 (Forall_forall _ _) Hstart)].
    all: unfold kept_requirements in Hx;
      rewrite list_elem_of_bind, requirement_patterns_triggers in Hx;
      destruct Hx as (p & Hx & (triggers & -> & Ht)%list_elem_of_fmap);
      eapply pattern_requirements_clause; [|done];
      by apply (proj1 (Forall_forall _ _) requirement_triggers_clause).
Qed.

End clauses.

(** ** The set order and the match *)
Section set_order_and_match.
Import EmailAssistant.

Lemma overlap_same_set keywords keywords' row :
  (∀ k, k ∈ keywords ↔ k ∈ keywords') →
  overlap keywords row = overlap keywords' row.
Proof.
  intros Hk. unfold overlap. f_equal. apply set_eq. intros k.
  by rewrite !elem_of_intersection, !elem_of_list_to_set, Hk.
Qed.

Lemma find_best_solution_same_set kb keywords keywords' subject_s body_s :
  (∀ k, k ∈ keywords ↔ k ∈ keywords') →
  find_best_solution kb keywords subject_s body_s
  = find_best_solution kb keywords' subject_s body_s.
Proof.
  intros Hk. unfold find_best_solution.
  assert (∀ st, foldl (consider keywords (subject_s +:+ " " +:+ body_s)) st kb
                = foldl (consider keywords' (subject_s +:+ " " +:+ body_s)) st kb) as ->;
    [|done].
  induction kb as [|row kb IH]; intros st; [done|]. simpl. rewrite IH. f_equal.
  unfold consider, total_score. by rewrite (overlap_same_set _ _ _ Hk).
Qed.

Lemma extract_keywords_all (order : SetOrder) text k :
  length (remove_dups (collected_keywords text)) ≤ 10 →
  k ∈ @extract_keywords order text ↔ k ∈ collected_keywords text.
Proof.
  intros Hlen. unfold extract_keywords.
  pose proof (@list_set_perm order (collected_keywords text)) as Hp.
  rewrite take_ge by (by rewrite Hp).
  by rewrite Hp, elem_of_remove_dups.
Qed.

(** The order of the list itself: each keyword where it is seen last. *)
#[local] Program Instance list_order : SetOrder := {| list_set xs := remove_dups xs |}.
Next Obligation. done. Qed.

(** X18.  The matcher takes the extracted keywords as a set.  So when a
    text yields at most 10 distinct keywords, the order in which the set
    of keywords is iterated has no influence on the solution found. *)
Theorem find_best_solution_any_set_order (order1 order2 : SetOrder)
    (kb : list kb_row) (text subject_s body_s : string) :
  length (remove_dups (collected_keywords text)) ≤ 10 →
  find_best_solution kb (@extract_keywords order1 text) subject_s body_s
  = find_best_solution kb (@extract_keywords order2 text) subject_s body_s.
Proof.
  intros Hlen. apply find_best_solution_same_set. intros k.
  by rewrite !extract_keywords_all.
Qed.

Lemma find_best_solution_any_set_order_witness :
  length (remove_dups (collected_keywords "api billing error")) ≤ 10
  ∧ @extract_keywords gset_order "api billing error"
    ≠ @extract_keywords list_order "api billing error"
  ∧ find_best_solution knowledge_entries
      (@extract_keywords gset_order "api billing error") "api" "billing error"
    = find_best_solution knowledge_entries
      (@extract_keywords list_order "api billing error") "api" "billing error".
Proof.
  assert (length (remove_dups (collected_keywords "api billing error")) ≤ 10) as Hlen.
  { vm_compute. lia. }
  split_and!; [done|by vm_compute|].
  apply (find_best_solution_any_set_order gset_order list_order knowledge_entries
           "api billing error" "api" "billing error" Hlen).
Defined.

End set_order_and_match.

(** ** Sample databases and knowledge bases *)
Section more_instances.
Import EmailAssistant.

Lemma statuses_closed_preserved_witness :
  statuses_closed one_email
  ∧ statuses_closed
      (@Routes.process_email gset_order None "2025-01-01T12:00:00" "20250101120000"
         (list_to_map [ ("sender", PStr "a@b.co"); ("subject", PStr "Hi");
                        ("body", PStr "Hello") ]) one_email).2
  ∧ statuses_closed (Routes.send_response (Some 1%Z) one_email).2
  ∧ statuses_closed (regenerate_response "20250101120000" (Some 1%Z) one_email).2.
Proof.
  assert (statuses_closed one_email) as Hdb.
  { intros i row. unfold one_email. simpl.
    intros [_ <-]%lookup_singleton_Some. by left. }
  split; [done|].
  apply (@statuses_closed_preserved gset_order None "2025-01-01T12:00:00"
           "20250101120000" _ (Some 1%Z) one_email Hdb).
Defined.

Definition billing_other_escalation : kb_row :=
  {| category := category billing_payment;
     kb_keywords := kb_keywords billing_payment;
     solution := solution billing_payment;
     escalation_info := "Ask the finance desk" |}.

Lemma escalation_shows_on_fallback_only_witness :
  same_but_escalation [billing_payment] [billing_other_escalation]
  ∧ generate_ai_response [billing_payment] "20250101120000" (stored_fields stored_email)
    = generate_ai_response [billing_other_escalation] "20250101120000"
        (stored_fields stored_email).
Proof.
  assert (same_but_escalation [billing_payment] [billing_other_escalation]) as Hkb
    by (by repeat constructor).
  split; [done|].
  destruct (escalation_shows_on_fallback_only [billing_payment]
              [billing_other_escalation] "20250101120000"
              (stored_fields stored_email) Hkb) as [[_ Hkey]|Heq]; [|done].
  vm_compute in Hkey. discriminate.
Defined.

Lemma process_email_stores_witness :
  ascii_text "a@b.co" = true ∧ Pipeline.has_room one_email
  ∧ ∃ email_data row,
      @Pipeline.process_email gset_order None "2025-01-01T12:00:00" "20250101120000"
        one_email (PStr "a@b.co") (PStr "Hi") (PStr "Hello")
      = Ok (email_data,
            {| emails := <[Pipeline.next_id (emails one_email) := row]> (emails one_email);
               knowledge_base := knowledge_base one_email |})
      ∧ status row = "pending".
Proof.
  assert (ascii_text "a@b.co" = true) as Hs by reflexivity.
  assert (ascii_text "Hi" = true) as Hu by reflexivity.
  assert (ascii_text "Hello" = true) as Hb by reflexivity.
  assert (Pipeline.has_room one_email) as Hroom by (by vm_compute).
  split; [done|]. split; [done|].
  destruct (@process_email_stores gset_order None "2025-01-01T12:00:00"
              "20250101120000" one_email "a@b.co" "Hi" "Hello" Hs Hu Hb Hroom)
    as (email_data & row & Hp & _ & _ & Hrow & _).
  exists email_data, row. split; [exact Hp|].
  by destruct Hrow as (_ & _ & _ & _ & _ & _ & _ & _ & _ & Hst).
Defined.

Definition outage_report : string :=
  "Our api is down. We need a fix for the login page today.".

Lemma extract_keywords_vocabulary_witness :
  ascii_text outage_report = true
  ∧ @extract_keywords gset_order outage_report ≠ []
  ∧ Forall (λ k, lower k ∈ vocabulary) (@extract_keywords gset_order outage_report).
Proof.
  assert (ascii_text outage_report = true) as Ha by reflexivity.
  split; [done|]. split; [by vm_compute|].
  apply (@extract_keywords_vocabulary gset_order outage_report Ha).
Defined.

Lemma kept_requirements_clauses_witness :
  ascii_text outage_report = true
  ∧ kept_requirements outage_report ≠ []
  ∧ Forall (λ r, 10 < String.length r ∧ all_chars clause_char r = true
                 ∧ starts_like_trigger r)
      (kept_requirements outage_report).
Proof.
  assert (ascii_text outage_report = true) as Ha by reflexivity.
  split; [done|]. split; [by vm_compute|].
  apply (kept_requirements_clauses outage_report Ha).
Defined.

End more_instances.
